(** * artisan-runner: a shallow embedding of [artisan_runner.go]

    The program is a single Go file.  Its pure parts (the selection parser
    [parseNumbers], [dedupe], the picker's default set and the translation of
    picks) are embedded as functions.  The parts that talk to the operating
    system ([main], [saveLastSelections], [loadLastSelections]) are embedded in
    a small state-and-exit monad over an explicit environment [Env] and
    state [State].

    Go values are modelled as follows.
    - [string]: a sequence of bytes, here Rocq's [string] (a list of [ascii]).
    - [int]: a 64-bit integer, here [Z]; the only place where an [int] is
      produced from outside data is [strconv.Atoi], whose range check is
      written out ([intSize]).
    - [[]int], [[]string]: lists; the nil slice and the empty slice both are
      the empty list.
    - [(T, error)]: [result T], with [Err] carrying the error value.
    - [map[int]struct{}]: a finite set, stdpp's [gset Z]. *)

From Stdlib Require Import ZArith Ascii String List Lia DecimalString.
From Stdlib Require Import DecimalFacts DecimalPos DecimalZ.
From stdpp Require Import base decidable option list gmap strings.

Local Open Scope Z_scope.
#[local] Set Warnings "-clear-no-such-hyp".

(** ** Errors and results *)

(** The error values the program creates or passes on.  Where Go formats a
    message, the constructor keeps the arguments of the format string:
    - [ErrInvalidNumber p]    is [fmt.Errorf("invalid number: %q", p)],
    - [ErrOutOfRange n]       is [fmt.Errorf("choice out of range: %d", n)],
    - [ErrUnableToResolve e]  is [fmt.Errorf("unable to resolve path: %w", e)],
    - [ErrCouldNotLoad e]     is [fmt.Errorf("could not load last selections: %w", e)],
    - [ErrNoLastSaved]        is [errors.New("no last selections saved")],
    - [ErrNoCommands]         is [errors.New("no commands selected")].
    The others are made by the Go library or the operating system:
    - [ErrNotExist p]         a [*fs.PathError] for a file that is not there,
    - [ErrJSONSyntax]         a [*json.SyntaxError],
    - [ErrJSONType]           a [*json.UnmarshalTypeError],
    - [ErrOS msg]             any other error, with its text. *)
Inductive error : Type :=
  | ErrInvalidNumber (p : string)
  | ErrOutOfRange (n : Z)
  | ErrUnableToResolve (e : error)
  | ErrCouldNotLoad (e : error)
  | ErrNoLastSaved
  | ErrNoCommands
  | ErrNotExist (p : string)
  | ErrJSONSyntax
  | ErrJSONType
  | ErrOS (msg : string).

Inductive result (A : Type) : Type :=
  | Ok (a : A)
  | Err (e : error).
Arguments Ok {A} a.
Arguments Err {A} e.

(** ** The Go library functions used by the parser *)

Module strings.

(** [strings.Split(s, sep)] for a separator of one byte: [n] separators give
    [n + 1] segments, so the empty string gives one empty segment. *)
Fixpoint Split (s : string) (sep : ascii) : list string :=
  match s with
  | EmptyString => [EmptyString]
  | String c rest =>
      if Ascii.eqb c sep then EmptyString :: Split rest sep
      else match Split rest sep with
           | [] => [String c EmptyString]
           | seg :: segs => String c seg :: segs
           end
  end.

Definition byte (n : N) : ascii := ascii_of_N n.

(** The width in bytes of a white space rune at the head of [s], or [0]
    when [s] does not start with one.  [unicode.IsSpace] holds of
    U+0009..U+000D, U+0020, U+0085, U+00A0, U+1680, U+2000..U+200A, U+2028,
    U+2029, U+202F, U+205F and U+3000; the runes above U+007F are matched by
    their UTF-8 encodings.  A byte sequence that is not valid UTF-8 decodes
    to [utf8.RuneError], which is not a space. *)
Definition spaceWidth (s : string) : nat :=
  match s with
  | EmptyString => 0%nat
  | String c0 s1 =>
      let b0 := N_of_ascii c0 in
      if ((9 <=? b0) && (b0 <=? 13) || (b0 =? 32))%N then 1%nat
      else match s1 with
      | EmptyString => 0%nat
      | String c1 s2 =>
          let b1 := N_of_ascii c1 in
          if ((b0 =? 194) && ((b1 =? 133) || (b1 =? 160)))%N then 2%nat
          else match s2 with
          | EmptyString => 0%nat
          | String c2 _ =>
              let b2 := N_of_ascii c2 in
              if ((b0 =? 225) && (b1 =? 154) && (b2 =? 128)
                  || (b0 =? 226) && (b1 =? 128) &&
                       ((128 <=? b2) && (b2 <=? 138) || (b2 =? 168)
                        || (b2 =? 169) || (b2 =? 175))
                  || (b0 =? 226) && (b1 =? 129) && (b2 =? 159)
                  || (b0 =? 227) && (b1 =? 128) && (b2 =? 128))%N
              then 3%nat else 0%nat
          end
      end
  end.

(** The same for a white space rune at the end of a string, given the
    string reversed: [utf8.DecodeLastRuneInString] walks back to the start
    byte of the last rune, so a trailing space is recognised exactly when
    the string ends with the encoding of one. *)
Definition spaceWidthRev (r : string) : nat :=
  match r with
  | EmptyString => 0%nat
  | String c0 r1 =>
      let b0 := N_of_ascii c0 in
      if ((9 <=? b0) && (b0 <=? 13) || (b0 =? 32))%N then 1%nat
      else match r1 with
      | EmptyString => 0%nat
      | String c1 r2 =>
          let b1 := N_of_ascii c1 in
          if ((b1 =? 194) && ((b0 =? 133) || (b0 =? 160)))%N then 2%nat
          else match r2 with
          | EmptyString => 0%nat
          | String c2 _ =>
              let b2 := N_of_ascii c2 in
              if ((b2 =? 225) && (b1 =? 154) && (b0 =? 128)
                  || (b2 =? 226) && (b1 =? 128) &&
                       ((128 <=? b0) && (b0 <=? 138) || (b0 =? 168)
                        || (b0 =? 169) || (b0 =? 175))
                  || (b2 =? 226) && (b1 =? 129) && (b0 =? 159)
                  || (b2 =? 227) && (b1 =? 128) && (b0 =? 128))%N
              then 3%nat else 0%nat
          end
      end
  end.

Fixpoint drop (n : nat) (s : string) : string :=
  match n, s with
  | S k, String _ rest => drop k rest
  | _, _ => s
  end.

(** Removes white space runes from the head for as long as there is one;
    [fuel] bounds the number of runes, and the length of the string is
    enough. *)
Fixpoint trimWith (width : string -> nat) (fuel : nat) (s : string) : string :=
  match fuel with
  | O => s
  | S fuel' =>
      match width s with
      | O => s
      | w => trimWith width fuel' (drop w s)
      end
  end.

Definition TrimLeftSpace (s : string) : string :=
  trimWith spaceWidth (String.length s) s.

Definition TrimRightSpace (s : string) : string :=
  String.rev (trimWith spaceWidthRev (String.length s) (String.rev s)).

(** [strings.TrimSpace(s)]: [TrimFunc(s, unicode.IsSpace)], that is the
    right trim of the left trim. *)
Definition TrimSpace (s : string) : string :=
  TrimRightSpace (TrimLeftSpace s).

End strings.

Module strconv.

(** The width of Go's [int] on the platforms the program is built for. *)
Definition intSize : Z := 64.

Definition digit (c : ascii) : option Z :=
  let b := N_of_ascii c in
  if ((48 <=? b) && (b <=? 57))%N then Some (Z.of_N b - 48) else None.

(** The value of a string of decimal digits, read from the left on top of
    [acc]; [None] when a byte is not a digit. *)
Fixpoint digits (s : string) (acc : Z) : option Z :=
  match s with
  | EmptyString => Some acc
  | String c rest =>
      match digit c with
      | Some d => digits rest (acc * 10 + d)
      | None => None
      end
  end.

(** [strconv.Atoi(s)]: an optional sign, then one or more decimal digits,
    and a value that fits an [int].  [None] stands for a non-nil error
    (a syntax error or a range error; [parseNumbers] does not tell them
    apart). *)
Definition Atoi (s : string) : option Z :=
  let '(neg, body) :=
    match s with
    | String "-" rest => (true, rest)
    | String "+" rest => (false, rest)
    | _ => (false, s)
    end in
  match body with
  | EmptyString => None
  | _ =>
      match digits body 0 with
      | None => None
      | Some n =>
          let v := if neg then - n else n in
          if (- 2 ^ (intSize - 1) <=? v) && (v <=? 2 ^ (intSize - 1) - 1)
          then Some v else None
      end
  end.

End strconv.

(** ** The selection parser *)

(** [dedupe]: the loop over [in_], with the set [seen] and the slice [out]. *)
Fixpoint dedupe_loop (in_ : list Z) (seen : gset Z) (out : list Z) : list Z :=
  match in_ with
  | [] => out
  | v :: rest =>
      if decide (v ∈ seen) then dedupe_loop rest seen out
      else dedupe_loop rest ({[v]} ∪ seen) (out ++ [v])
  end.

Definition dedupe (in_ : list Z) : list Z := dedupe_loop in_ ∅ [].

(** [for i := 1; i <= max; i++ { out = append(out, i) }], entered with the
    counter at [i] and [n] rounds to go.  The counter stops at [max + 1],
    which is an [int] for every [max] that is the length of a slice. *)
Fixpoint appendFrom (i : Z) (n : nat) (out : list Z) : list Z :=
  match n with
  | O => out
  | S k => appendFrom (i + 1) k (out ++ [i])
  end.

(** The body of [if p == "0"]: [out = out[:0]], then the loop. *)
Definition allIndices (max : Z) : list Z := appendFrom 1 (Z.to_nat max) [].

(** The loop of [parseNumbers] over the remaining [parts], with the slice
    [out] built so far. *)
Fixpoint parseNumbers_loop (parts : list string) (max : Z) (out : list Z)
  : result (list Z) :=
  match parts with
  | [] => Ok (dedupe out)
  | p :: rest =>
      let p := strings.TrimSpace p in
      if decide (p = EmptyString) then parseNumbers_loop rest max out
      else if decide (p = "0") then Ok (allIndices max)
      else match strconv.Atoi p with
           | None => Err (ErrInvalidNumber p)
           | Some n =>
               if (n <? 1) || (n >? max) then Err (ErrOutOfRange n)
               else parseNumbers_loop rest max (out ++ [n])
           end
  end.

Definition parseNumbers (s : string) (max : Z) : result (list Z) :=
  parseNumbers_loop (strings.Split s ",") max [].


(** ** The catalog and the preference record *)

Record Task : Type := { Label : string; Cmd : list string }.

Definition tasks : list Task :=
  [ {| Label := "php artisan optimize:clear";
       Cmd := ["php"; "artisan"; "optimize:clear"] |};
    {| Label := "php artisan config:clear";
       Cmd := ["php"; "artisan"; "config:clear"] |};
    {| Label := "php artisan route:clear";
       Cmd := ["php"; "artisan"; "route:clear"] |};
    {| Label := "php artisan cache:clear";
       Cmd := ["php"; "artisan"; "cache:clear"] |} ].

(** [len(tasks)] *)
Definition lenTasks : Z := Z.of_nat (length tasks).

(** [tasks[i-1]] for a 1-based index [i]; [None] where Go would panic. *)
Definition taskAt (i : Z) : option Task :=
  if i <? 1 then None else tasks !! Z.to_nat (i - 1).

Record AppConfig : Type := {
  LastSelections : list Z;   (* json:"last_selections" *)
  SavedAt : string           (* json:"saved_at" *)
}.

(** ** encoding/json, for the type [AppConfig]

    [MarshalIndent] is the text Go writes for an [AppConfig] with an empty
    prefix and an indent of two spaces.  [Unmarshal] is a scanner for JSON texts (RFC 8259)
    followed by the decoding of the value into an [AppConfig].

    Limits of the model, none of which [loadLastSelections] can observe
    through [LastSelections] of a record written by [MarshalIndent]:
    bytes above 0x7F inside strings are copied as they are (Go replaces
    invalid UTF-8 by U+FFFD, and writes U+2028 and U+2029 as escapes); the
    depth limit of the scanner is left out; and the empty list stands for
    the nil slice, so that an empty selection is written [null] (Go writes
    an empty slice that is not nil as an empty array; both texts load as
    the empty list).

    A key may occur more than once.  The decoder then stores every
    occurrence in turn into the same field: [null] sets the slice to nil,
    and an array is decoded into the slice that is there, element by
    element, where a [null] element leaves its slot as it is.  The slots
    behind the length of the slice ([spare]) keep what an earlier, longer
    array left in them, and are zero otherwise. *)
Module json.

#[local] Unset Elimination Schemes.
Inductive value : Type :=
  | Null
  | Bool (b : bool)
  | Number (lit : string)
  | Str (s : string)
  | Array (elems : list value)
  | Object (members : list (string * value)).
#[local] Set Elimination Schemes.

Definition quoteChar : ascii := ascii_of_N 34.
Definition backslash : ascii := ascii_of_N 92.
Definition newline : string := String (ascii_of_N 10) EmptyString.

(** *** Encoding *)

Definition hexDigit (n : N) : ascii :=
  ascii_of_N (if (n <? 10)%N then 48 + n else 87 + n).

(** One byte of a string, as the encoder writes it with HTML escaping on:
    the quote and the backslash get a backslash, the control characters
    their short form or [\u00XX], and [<], [>], [&] become [\u00XX].
    (Backspace and form feed have a short form since Go 1.22 and were
    written [\u0008] and [\u000c] before; the decoder reads both.) *)
Definition escapeByte (c : ascii) : string :=
  let b := N_of_ascii c in
  if ((b =? 34) || (b =? 92))%N then String backslash (String c EmptyString)
  else if (b =? 8)%N then String backslash "b"
  else if (b =? 12)%N then String backslash "f"
  else if (b =? 10)%N then String backslash "n"
  else if (b =? 13)%N then String backslash "r"
  else if (b =? 9)%N then String backslash "t"
  else if ((b <? 32) || (b =? 60) || (b =? 62) || (b =? 38))%N then
    String backslash
      (String "u" (String "0" (String "0"
         (String (hexDigit (b / 16))
            (String (hexDigit (b mod 16)) EmptyString)))))
  else String c EmptyString.

Fixpoint escape (s : string) : string :=
  match s with
  | EmptyString => EmptyString
  | String c rest => escapeByte c +:+ escape rest
  end.

Definition quote (s : string) : string :=
  String quoteChar (escape s +:+ String quoteChar EmptyString).

(** [strconv.AppendInt(_, n, 10)] *)
Definition formatInt (n : Z) : string :=
  DecimalString.NilZero.string_of_int (Z.to_int n).

(** The elements of an array at depth 2, each on a line of its own. *)
Fixpoint encodeElems (l : list Z) : string :=
  match l with
  | [] => EmptyString
  | n :: rest =>
      newline +:+ "    " +:+ formatInt n +:+
      match rest with
      | [] => EmptyString
      | _ => "," +:+ encodeElems rest
      end
  end.

(** A [[]int] field at depth 1.  The nil slice, which the empty list stands
    for, is written [null]. *)
Definition encodeInts (l : list Z) : string :=
  match l with
  | [] => "null"
  | _ => "[" +:+ encodeElems l +:+ newline +:+ "  ]"
  end.

(** [json.MarshalIndent] of [cfg] with an empty prefix and an indent of two
    spaces.  Encoding an [AppConfig] has no failing case. *)
Definition MarshalIndent (cfg : AppConfig) : result string :=
  Ok ("{" +:+ newline +:+
      "  " +:+ quote "last_selections" +:+ ": " +:+
        encodeInts (LastSelections cfg) +:+ "," +:+ newline +:+
      "  " +:+ quote "saved_at" +:+ ": " +:+ quote (SavedAt cfg) +:+ newline +:+
      "}").

(** *** Scanning *)

Inductive frame : Type :=
  | FArray (revElems : list value)
  | FObject (revMembers : list (string * value))
  | FKey (k : string).

Inductive mode : Type :=
  | BeginValue                 (* a value must follow *)
  | BeginValueOrEnd            (* after [[]: a value or []] *)
  | BeginKeyOrEnd              (* after [{]: a key or [}] *)
  | BeginKey                   (* after [,] in an object: a key *)
  | AfterKey                   (* [:] must follow *)
  | AfterValue                 (* [,] or a closing bracket; at top level, the end *)
  | InString (key : bool) (revRaw : string)
  | InEscape (key : bool) (revRaw : string)
  | InHex (key : bool) (revRaw : string) (more : nat)
  | InNumber (revLit : string)
  | InLiteral (rest : string) (v : value)
  | Failed.

Record state : Type := State {
  st_mode : mode;
  st_stack : list frame;
  st_top : option value      (* the complete top-level value *)
}.

Definition failed : state := State Failed [] None.
Definition start : state := State BeginValue [] None.

Definition isSpace (c : ascii) : bool :=
  let b := N_of_ascii c in ((b =? 32) || (b =? 9) || (b =? 13) || (b =? 10))%N.

Definition isDigit (c : ascii) : bool :=
  let b := N_of_ascii c in ((48 <=? b) && (b <=? 57))%N.

Definition isHex (c : ascii) : bool :=
  let b := N_of_ascii c in
  ((48 <=? b) && (b <=? 57) || (97 <=? b) && (b <=? 102)
   || (65 <=? b) && (b <=? 70))%N.

Definition isNumberChar (c : ascii) : bool :=
  isDigit c || Ascii.eqb c "-" || Ascii.eqb c "+" || Ascii.eqb c "."
  || Ascii.eqb c "e" || Ascii.eqb c "E".

Fixpoint skipDigits (s : string) : string :=
  match s with
  | String c rest => if isDigit c then skipDigits rest else s
  | EmptyString => EmptyString
  end.

Definition isEmpty (s : string) : bool :=
  match s with EmptyString => true | _ => false end.

(** The exponent part of a number, or nothing. *)
Definition validExp (s : string) : bool :=
  match s with
  | EmptyString => true
  | String e rest =>
      if Ascii.eqb e "e" || Ascii.eqb e "E" then
        let rest' :=
          match rest with
          | String sign r => if Ascii.eqb sign "+" || Ascii.eqb sign "-" then r else rest
          | EmptyString => rest
          end in
        match rest' with
        | String d r => isDigit d && isEmpty (skipDigits r)
        | EmptyString => false
        end
      else false
  end.

(** The fraction part of a number, or nothing, then the exponent. *)
Definition validFrac (s : string) : bool :=
  match s with
  | String "." rest =>
      match rest with
      | String d r => isDigit d && validExp (skipDigits r)
      | EmptyString => false
      end
  | _ => validExp s
  end.

(** A number literal: an optional minus sign; a zero, or a digit from 1 to
    9 and further digits; then the fraction part and the exponent part. *)
Definition validNumber (s : string) : bool :=
  let body := match s with String "-" rest => rest | _ => s end in
  match body with
  | String c rest =>
      if Ascii.eqb c "0" then validFrac rest
      else if isDigit c then validFrac (skipDigits rest)
      else false
  | EmptyString => false
  end.

(** Closes a value: it becomes the top-level value, the next element of
    the array on the stack, or the value of the pending key. *)
Definition push (v : value) (stack : list frame) : state :=
  match stack with
  | [] => State AfterValue [] (Some v)
  | FArray elems :: below => State AfterValue (FArray (v :: elems) :: below) None
  | FKey k :: FObject members :: below =>
      State AfterValue (FObject ((k, v) :: members) :: below) None
  | _ => failed
  end.

(** The first byte [c] of a value. *)
Definition beginValue (c : ascii) (stack : list frame) : state :=
  if Ascii.eqb c "{" then State BeginKeyOrEnd (FObject [] :: stack) None
  else if Ascii.eqb c "[" then State BeginValueOrEnd (FArray [] :: stack) None
  else if Ascii.eqb c quoteChar then State (InString false EmptyString) stack None
  else if Ascii.eqb c "-" || isDigit c then
    State (InNumber (String c EmptyString)) stack None
  else if Ascii.eqb c "t" then State (InLiteral "rue" (Bool true)) stack None
  else if Ascii.eqb c "f" then State (InLiteral "alse" (Bool false)) stack None
  else if Ascii.eqb c "n" then State (InLiteral "ull" Null) stack None
  else failed.

(** A byte [c] that is not white space, after a complete value. *)
Definition afterValue (c : ascii) (stack : list frame) : state :=
  match stack with
  | FArray elems :: below =>
      if Ascii.eqb c "," then State BeginValue stack None
      else if Ascii.eqb c "]" then push (Array (rev elems)) below
      else failed
  | FObject members :: below =>
      if Ascii.eqb c "," then State BeginKey stack None
      else if Ascii.eqb c "}" then push (Object (rev members)) below
      else failed
  | _ => failed
  end.

Definition hexValue (c : ascii) : N :=
  let b := N_of_ascii c in
  (if b <=? 57 then b - 48 else if b <=? 70 then b - 55 else b - 87)%N.

Definition hex4 (s : string) : option (N * string) :=
  match s with
  | String a (String b (String c (String d rest))) =>
      if isHex a && isHex b && isHex c && isHex d
      then Some ((hexValue a * 4096 + hexValue b * 256
                  + hexValue c * 16 + hexValue d)%N, rest)
      else None
  | _ => None
  end.

(** [utf8.EncodeRune] for a rune that is not a surrogate. *)
Definition encodeRune (r : N) : string :=
  (if r <? 128 then String (ascii_of_N r) EmptyString
   else if r <? 2048 then
     String (ascii_of_N (192 + r / 64))
       (String (ascii_of_N (128 + r mod 64)) EmptyString)
   else if r <? 65536 then
     String (ascii_of_N (224 + r / 4096))
       (String (ascii_of_N (128 + (r / 64) mod 64))
          (String (ascii_of_N (128 + r mod 64)) EmptyString))
   else
     String (ascii_of_N (240 + r / 262144))
       (String (ascii_of_N (128 + (r / 4096) mod 64))
          (String (ascii_of_N (128 + (r / 64) mod 64))
             (String (ascii_of_N (128 + r mod 64)) EmptyString))))%N.

Definition isSurrogate (r : N) : bool := ((55296 <=? r) && (r <? 57344))%N.

(** [utf16.DecodeRune]: a high and a low surrogate make one rune. *)
Definition decodeSurrogates (r1 r2 : N) : option N :=
  (if (55296 <=? r1) && (r1 <? 56320) && (56320 <=? r2) && (r2 <? 57344)
   then Some ((r1 - 55296) * 1024 + (r2 - 56320) + 65536)
   else None)%N.

(** The second half of a surrogate pair, when [s] starts with one that
    fits the first half [r1]. *)
Definition lowSurrogate (r1 : N) (s : string) : option (N * string) :=
  match s with
  | String b (String u rest) =>
      if Ascii.eqb b backslash && Ascii.eqb u "u" then
        match hex4 rest with
        | Some (r2, rest') =>
            match decodeSurrogates r1 r2 with
            | Some r => Some (r, rest')
            | None => None
            end
        | None => None
        end
      else None
  | _ => None
  end.

(** The byte an escape other than [\u] stands for. *)
Definition unescape (c : ascii) : ascii :=
  if Ascii.eqb c "b" then ascii_of_N 8
  else if Ascii.eqb c "f" then ascii_of_N 12
  else if Ascii.eqb c "n" then ascii_of_N 10
  else if Ascii.eqb c "r" then ascii_of_N 13
  else if Ascii.eqb c "t" then ascii_of_N 9
  else c.

(** The string that the raw text between two quotes stands for.  The
    scanner has checked the escapes; [fuel] bounds the number of bytes. *)
Fixpoint unquote (fuel : nat) (s : string) : string :=
  match fuel with
  | O => EmptyString
  | S fuel' =>
      match s with
      | EmptyString => EmptyString
      | String c rest =>
          if negb (Ascii.eqb c backslash) then String c (unquote fuel' rest)
          else match rest with
          | EmptyString => EmptyString
          | String e rest1 =>
              if negb (Ascii.eqb e "u") then String (unescape e) (unquote fuel' rest1)
              else match hex4 rest1 with
              | None => EmptyString
              | Some (r1, rest2) =>
                  if isSurrogate r1 then
                    match lowSurrogate r1 rest2 with
                    | Some (r, rest4) => encodeRune r +:+ unquote fuel' rest4
                    | None => encodeRune 65533 +:+ unquote fuel' rest2
                    end
                  else encodeRune r1 +:+ unquote fuel' rest2
              end
          end
      end
  end.

Definition closeString (revRaw : string) : string :=
  unquote (String.length revRaw) (String.rev revRaw).

(** A number ends before the byte [c]: the literal is checked and becomes
    a value, and [c] is read after it. *)
Definition afterValueOrSpace (st : state) (c : ascii) : state :=
  match st_mode st with
  | AfterValue => if isSpace c then st else afterValue c (st_stack st)
  | _ => failed
  end.

Definition closeNumber (revLit : string) (stack : list frame) : state :=
  let lit := String.rev revLit in
  if validNumber lit then push (Number lit) stack else failed.

(** One byte of input. *)
Definition step (st : state) (c : ascii) : state :=
  let stack := st_stack st in
  match st_mode st with
  | BeginValue => if isSpace c then st else beginValue c stack
  | BeginValueOrEnd =>
      if isSpace c then st
      else if Ascii.eqb c "]" then
        match stack with
        | FArray elems :: below => push (Array (rev elems)) below
        | _ => failed
        end
      else beginValue c stack
  | BeginKeyOrEnd =>
      if isSpace c then st
      else if Ascii.eqb c "}" then
        match stack with
        | FObject members :: below => push (Object (rev members)) below
        | _ => failed
        end
      else if Ascii.eqb c quoteChar then State (InString true EmptyString) stack None
      else failed
  | BeginKey =>
      if isSpace c then st
      else if Ascii.eqb c quoteChar then State (InString true EmptyString) stack None
      else failed
  | AfterKey =>
      if isSpace c then st
      else if Ascii.eqb c ":" then State BeginValue stack None
      else failed
  | AfterValue => if isSpace c then st else afterValue c stack
  | InString key revRaw =>
      if Ascii.eqb c quoteChar then
        if key then State AfterKey (FKey (closeString revRaw) :: stack) None
        else push (Str (closeString revRaw)) stack
      else if Ascii.eqb c backslash then State (InEscape key (String c revRaw)) stack None
      else if (N_of_ascii c <? 32)%N then failed
      else State (InString key (String c revRaw)) stack None
  | InEscape key revRaw =>
      if Ascii.eqb c quoteChar || Ascii.eqb c backslash || Ascii.eqb c "/"
         || Ascii.eqb c "b" || Ascii.eqb c "f" || Ascii.eqb c "n"
         || Ascii.eqb c "r" || Ascii.eqb c "t"
      then State (InString key (String c revRaw)) stack None
      else if Ascii.eqb c "u" then State (InHex key (String c revRaw) 4) stack None
      else failed
  | InHex key revRaw more =>
      if isHex c then
        match more with
        | S (S k) => State (InHex key (String c revRaw) (S k)) stack None
        | _ => State (InString key (String c revRaw)) stack None
        end
      else failed
  | InNumber revLit =>
      if isNumberChar c then State (InNumber (String c revLit)) stack None
      else afterValueOrSpace (closeNumber revLit stack) c
  | InLiteral rest v =>
      match rest with
      | String c' rest' =>
          if Ascii.eqb c c' then
            if isEmpty rest' then push v stack
            else State (InLiteral rest' v) stack None
          else failed
      | EmptyString => failed
      end
  | Failed => st
  end.

Fixpoint scan (st : state) (s : string) : state :=
  match s with
  | EmptyString => st
  | String c rest => scan (step st c) rest
  end.

(** The end of the input: a number may end here, and the top-level value
    must be complete. *)
Definition finish (st : state) : option value :=
  match st_mode st with
  | InNumber revLit => st_top (closeNumber revLit (st_stack st))
  | AfterValue => st_top st
  | _ => None
  end.

Definition parse (data : string) : option value := finish (scan start data).

(** *** Decoding into an [AppConfig] *)

Definition upper (c : ascii) : ascii :=
  let b := N_of_ascii c in
  if ((97 <=? b) && (b <=? 122))%N then ascii_of_N (b - 32) else c.

(** The key under which a field name is looked up when no field matches
    exactly: letters in upper case, and the two runes outside ASCII whose
    case folding is an ASCII letter, U+017F (to [S]) and U+212A (to [K]). *)
Fixpoint foldName (s : string) : string :=
  match s with
  | EmptyString => EmptyString
  | String c0 s1 =>
      let b0 := N_of_ascii c0 in
      match s1 with
      | String c1 s2 =>
          let b1 := N_of_ascii c1 in
          if ((b0 =? 197) && (b1 =? 191))%N then String "S" (foldName s2)
          else match s2 with
          | String c2 s3 =>
              if ((b0 =? 226) && (b1 =? 132) && (N_of_ascii c2 =? 170))%N
              then String "K" (foldName s3)
              else String (upper c0) (foldName s1)
          | EmptyString => String (upper c0) (foldName s1)
          end
      | EmptyString => String (upper c0) (foldName s1)
      end
  end.

(** An element of a [[]int], decoded into a slot that holds [old]: a
    number that [strconv.ParseInt] reads as a 64-bit integer; [null] leaves
    the slot as it is. *)
Definition decodeInt (old : Z) (v : value) : option Z :=
  match v with
  | Number lit => strconv.Atoi lit
  | Null => Some old
  | _ => None
  end.

(** The elements of an array, decoded one after the other into the slots
    [buf] of the slice; the slots behind [buf] are new and hold zero. *)
Fixpoint decodeInts (buf : list Z) (elems : list value) : option (list Z) :=
  match elems with
  | [] => Some []
  | v :: rest =>
      match decodeInt (hd 0 buf) v, decodeInts (tl buf) rest with
      | Some n, Some ns => Some (n :: ns)
      | _, _ => None
      end
  end.

(** What the decoder works on: [cfg] and the slots of [cfg.LastSelections]
    behind its length. *)
Record decoding : Type := {
  decoded : AppConfig;
  spare : list Z
}.

(** One member of the object: the key picks the field, and a key that
    names no field is skipped.  For the slice, [null] gives nil, an empty
    array a new empty slice, and another array is decoded into the slots
    that are there; for the string, [null] leaves it as it is.  A value of
    another kind is a type error ([None]). *)
Definition decodeMember (d : decoding) (member : string * value)
  : option decoding :=
  let cfg := decoded d in
  let '(k, v) := member in
  if decide (foldName k = foldName "last_selections") then
    match v with
    | Null =>
        Some {| decoded := {| LastSelections := []; SavedAt := SavedAt cfg |};
                spare := [] |}
    | Array [] =>
        Some {| decoded := {| LastSelections := []; SavedAt := SavedAt cfg |};
                spare := [] |}
    | Array elems =>
        let buf := LastSelections cfg ++ spare d in
        match decodeInts buf elems with
        | Some ns =>
            Some {| decoded := {| LastSelections := ns; SavedAt := SavedAt cfg |};
                    spare := drop (length elems) buf |}
        | None => None
        end
    | _ => None
    end
  else if decide (foldName k = foldName "saved_at") then
    match v with
    | Null => Some d
    | Str s =>
        Some {| decoded := {| LastSelections := LastSelections cfg; SavedAt := s |};
                spare := spare d |}
    | _ => None
    end
  else Some d.

Fixpoint decodeMembers (members : list (string * value)) (d : decoding)
  : option decoding :=
  match members with
  | [] => Some d
  | m :: rest =>
      match decodeMember d m with
      | Some d' => decodeMembers rest d'
      | None => None
      end
  end.

(** [json.Unmarshal(data, &cfg)] for [var cfg AppConfig]. *)
Definition Unmarshal (data : string) : result AppConfig :=
  let zero := {| LastSelections := []; SavedAt := EmptyString |} in
  match parse data with
  | None => Err ErrJSONSyntax
  | Some Null => Ok zero
  | Some (Object members) =>
      match decodeMembers members {| decoded := zero; spare := [] |} with
      | Some d => Ok (decoded d)
      | None => Err ErrJSONType
      end
  | Some _ => Err ErrJSONType
  end.

End json.

(** ** The world the program runs in *)

(** The command-line flags, as [flag.Parse] leaves them. *)
Record Flags : Type := {
  projectPath : string;   (* --path, default "." *)
  useLast : bool;         (* --use-last *)
  numbers : string;       (* --numbers, empty by default *)
  noColor : bool;         (* --no-color *)
  noSave : bool           (* --no-save *)
}.

(** [survey.MultiSelect]; [Default] is [None] as long as it is not set. *)
Record MultiSelect : Type := {
  Message : string;
  Options : list string;
  Default : option (list string)
}.

(** A child process that was started: [exec.Command(argv[0], argv[1:]...)]
    with [cmd.Dir = dir]. *)
Record Launch : Type := { argv : list string; dir : string }.

(** What the program prints.  The five printing helpers differ in the symbol
    and the colour in front of the text. *)
Inductive level : Type := Info | Warn | Success | Step | Failure.

(** The texts, with the arguments of their format strings:
    - [MsgProjectPath p]       "Project path: %s"
    - [MsgArtisanMissing]      "artisan not found in the given path. ..."
    - [MsgExecuting]           "Executing selected commands...\n"
    - [MsgSkipping idx]        "Skipping invalid index: %d"
    - [MsgRunning cmd]         "Running: %s" of [strings.Join(cmd, " ")]
    - [MsgErrorRunning l e]    "Error running '%s': %v"
    - [MsgDone]                "Done\n"
    - [MsgAllExecuted]         "All selected commands executed."
    - [MsgError e]             [e.Error()], printed by [fail]. *)
Inductive message : Type :=
  | MsgProjectPath (p : string)
  | MsgArtisanMissing
  | MsgExecuting
  | MsgSkipping (idx : Z)
  | MsgRunning (cmd : list string)
  | MsgErrorRunning (label : string) (e : error)
  | MsgDone
  | MsgAllExecuted
  | MsgError (e : error).

Record Line : Type := { lvl : level; coloured : bool; text : message }.

(** The part of the world the program only asks: the Go library and the
    operating system answer, and nothing in the program changes the answer.
    [cmd_Run] is given the processes started before. *)
Record Env : Type := {
  filepath_Abs : string -> result string;
  filepath_Join : string -> string -> string;
  filepath_Dir : string -> string;
  os_Stat : string -> bool;                       (* [err == nil] of [os.Stat] *)
  os_UserConfigDir : result string;
  os_UserHomeDir : result string;
  time_Now : string;                              (* [time.Now().Format(time.RFC3339)] *)
  writeError : string -> option error;            (* why a file cannot be written *)
  survey_AskOne : MultiSelect -> result (list string);
  cmd_Run : list Launch -> Launch -> option error
}.

(** The part the program changes: the files, the console and the child
    processes started so far. *)
Record State : Type := {
  files : gmap string string;
  console : list Line;
  launched : list Launch
}.

(** A run either comes back with a value or leaves through [os.Exit]. *)
Inductive outcome (A : Type) : Type :=
  | Returned (a : A) (st : State)
  | Exited (code : Z) (st : State).
Arguments Returned {A} a st.
Arguments Exited {A} code st.

Definition M (A : Type) : Type := State -> outcome A.

Definition ret {A} (a : A) : M A := fun st => Returned a st.

Definition bind {A B} (m : M A) (k : A -> M B) : M B :=
  fun st =>
    match m st with
    | Returned a st' => k a st'
    | Exited code st' => Exited code st'
    end.

Notation "'do' x <- m ;;; k" := (bind m (fun x => k))
  (at level 10, x name, m at level 99, k at level 200).
Notation "m ;;; k" := (bind m (fun _ => k))
  (at level 100, k at level 200, right associativity).

Definition os_Exit {A} (code : Z) : M A := fun st => Exited code st.

Definition finalState {A} (o : outcome A) : State :=
  match o with Returned _ st => st | Exited _ st => st end.

(** The exit status of the process: [0] when [main] returns. *)
Definition exitStatus {A} (o : outcome A) : Z :=
  match o with Returned _ _ => 0 | Exited code _ => code end.

(** ** The program *)

Section Program.

Variable env : Env.

(** *** Printing *)

(** [newColorizer(!*noColor)]: the colorizer is its one field, [enabled]. *)
Definition newColorizer (enabled : bool) : bool := enabled.

Definition println (l : level) (c : bool) (msg : message) : M unit :=
  fun st =>
    Returned tt {| files := files st;
                   console := console st ++ [{| lvl := l; coloured := c; text := msg |}];
                   launched := launched st |}.

Definition info (c : bool) (msg : message) : M unit := println Info c msg.
Definition warn (c : bool) (msg : message) : M unit := println Warn c msg.
Definition ok (c : bool) (msg : message) : M unit := println Success c msg.
Definition step (c : bool) (msg : message) : M unit := println Step c msg.
Definition errMsg (c : bool) (msg : message) : M unit := println Failure c msg.

(** [fail] prints the error and leaves with status 1; it does not return,
    so it stands where a value of any type is expected. *)
Definition fail {A} (c : bool) (err : error) : M A :=
  errMsg c (MsgError err) ;;; os_Exit 1.

(** *** Helpers *)

Definition fileExists (p : string) : bool := os_Stat env p.

Definition getConfigPath : result string :=
  match os_UserConfigDir env with
  | Ok d => Ok (filepath_Join env d "artisan-runner.json")
  | Err _ =>
      match os_UserHomeDir env with
      | Err err => Err err
      | Ok home => Ok (filepath_Join env home ".artisan-runner.json")
      end
  end.

(** [os.ReadFile]: the bytes of the file, or an error when there is none
    (the empty path names no file). *)
Definition os_ReadFile (st : State) (path : string) : result string :=
  if decide (path = EmptyString) then Err (ErrNotExist path)
  else match files st !! path with
       | Some b => Ok b
       | None => Err (ErrNotExist path)
       end.

(** [os.WriteFile]: the file holds the bytes afterwards, unless the world
    refuses the write (the empty path is always refused). *)
Definition os_WriteFile (path : string) (b : string) : M (option error) :=
  fun st =>
    if decide (path = EmptyString) then Returned (Some (ErrNotExist path)) st
    else match writeError env path with
         | Some err => Returned (Some err) st
         | None =>
             Returned None {| files := <[path := b]> (files st);
                              console := console st;
                              launched := launched st |}
         end.

(** [os.MkdirAll]: directories are not part of the state; whether the
    file can be written afterwards is [writeError]'s answer. *)
Definition os_MkdirAll (path : string) : M (option error) := ret None.

Definition saveLastSelections (path : string) (idxs : list Z) : M (option error) :=
  let cfg := {| LastSelections := idxs; SavedAt := time_Now env |} in
  match json.MarshalIndent cfg with
  | Err err => ret (Some err)
  | Ok b =>
      os_MkdirAll (filepath_Dir env path) ;;;
      os_WriteFile path b
  end.

Definition loadLastSelections (st : State) (path : string) : result (list Z) :=
  match os_ReadFile st path with
  | Err err => Err err
  | Ok b =>
      match json.Unmarshal b with
      | Err err => Err err
      | Ok cfg => Ok (LastSelections cfg)
      end
  end.

(** *** The interactive picker *)

Definition runAllLabel : string := "[Run ALL]".

(** [opts]: the synthetic option, then the labels of the catalog. *)
Definition pickerOptions : list string :=
  fold_left (fun opts t => opts ++ [Label t]) tasks [runAllLabel].

(** [def], the options checked in advance, from the last selection. *)
Definition defaultPicks (last : list Z) : list string :=
  if decide (length last = length tasks) then [] ++ [runAllLabel]
  else
    fold_left
      (fun def i =>
         if (1 <=? i) && (i <=? lenTasks) then
           match taskAt i with
           | Some t => def ++ [Label t]
           | None => def
           end
         else def)
      last [].

(** The prompt, with [Default] set when a last selection could be loaded
    and is not empty. *)
Definition pickerPrompt (st : State) (cfgPath : string) : MultiSelect :=
  let prompt := {| Message := "Select Artisan commands (space to toggle, enter to run):";
                   Options := pickerOptions;
                   Default := None |} in
  match loadLastSelections st cfgPath with
  | Ok last =>
      if decide (0 < length last)%nat then
        {| Message := Message prompt; Options := Options prompt;
           Default := Some (defaultPicks last) |}
      else prompt
  | Err _ => prompt
  end.

(** [i + 1] for the first task with the label [p], if any. *)
Fixpoint indexOfLabel (p : string) (ts : list Task) (i : Z) : option Z :=
  match ts with
  | [] => None
  | t :: rest =>
      if decide (Label t = p) then Some (i + 1)
      else indexOfLabel p rest (i + 1)
  end.

(** The translation of the picks into indices. *)
Definition translatePicks (picks : list string) : list Z :=
  let runAll := existsb (fun p => bool_decide (p = runAllLabel)) picks in
  if runAll then
    fold_left (fun sel i => sel ++ [Z.of_nat i + 1]) (seq 0 (length tasks)) []
  else
    fold_left
      (fun sel p =>
         match indexOfLabel p tasks 0 with
         | Some i => sel ++ [i]
         | None => sel
         end)
      picks [].

(** *** Running the selected commands *)

(** [cmd.Run()] for the task's command in [absPath].  What the child
    process does, to the files too, is outside the program: [files] holds
    the files as the program itself reads and writes them. *)
Definition runCommand (l : Launch) : M (option error) :=
  fun st =>
    Returned (cmd_Run env (launched st) l)
             {| files := files st; console := console st;
                launched := launched st ++ [l] |}.

(** The loop [for _, idx := range selectedIdxs]. *)
Fixpoint runSelected (c : bool) (absPath : string) (idxs : list Z) : M unit :=
  match idxs with
  | [] => ret tt
  | idx :: rest =>
      (if (idx <? 1) || (idx >? lenTasks) then
         warn c (MsgSkipping idx)
       else
         match taskAt idx with
         | None => ret tt
         | Some task =>
             step c (MsgRunning (Cmd task)) ;;;
             do err <- runCommand {| argv := Cmd task; dir := absPath |} ;;;
             match err with
             | Some e => errMsg c (MsgErrorRunning (Label task) e)
             | None => ok c MsgDone
             end
         end) ;;;
      runSelected c absPath rest
  end.

(** *** [main] *)

(** The [switch] that determines [selectedIdxs]. *)
Definition determineSelections (fl : Flags) (c : bool) (cfgPath : string)
  : M (list Z) :=
  if negb (bool_decide (numbers fl = EmptyString)) then
    match parseNumbers (numbers fl) lenTasks with
    | Err err => fail c err
    | Ok idxs => ret idxs
    end
  else if useLast fl then
    fun st =>
      match loadLastSelections st cfgPath with
      | Err err => fail c (ErrCouldNotLoad err) st
      | Ok last =>
          if decide (length last = 0%nat) then fail c ErrNoLastSaved st
          else ret last st
      end
  else
    fun st =>
      match survey_AskOne env (pickerPrompt st cfgPath) with
      | Err err => fail c err st
      | Ok picks => ret (translatePicks picks) st
      end.

(** The start of [main]: the project path is resolved and printed, and a
    missing [artisan] file is warned about. *)
Definition resolveProjectPath (fl : Flags) (c : bool) : M string :=
  do absPath <-
    match filepath_Abs env (projectPath fl) with
    | Err err => fail c (ErrUnableToResolve err)
    | Ok p => ret p
    end ;;;
  info c (MsgProjectPath absPath) ;;;
  (if negb (fileExists (filepath_Join env absPath "artisan"))
   then warn c MsgArtisanMissing else ret tt) ;;;
  ret absPath.

(** [cfgPath, _ := getConfigPath()]: the empty string when it fails. *)
Definition configPath : string :=
  match getConfigPath with Ok p => p | Err _ => EmptyString end.

(** [main], from the line after [flag.Parse()] on: [fl] holds the flags as
    [flag.Parse] returned them.  (A command line that package [flag]
    refuses never gets here: it ends in [flag.Parse] with status 2, and
    [-h] with status 0.) *)
Definition main (fl : Flags) : M unit :=
  let c := newColorizer (negb (noColor fl)) in
  do absPath <- resolveProjectPath fl c ;;;
  let cfgPath := configPath in
  do selectedIdxs <- determineSelections fl c cfgPath ;;;
  (if decide (length selectedIdxs = 0%nat) then fail c ErrNoCommands else ret tt) ;;;
  (if negb (noSave fl)
   then saveLastSelections cfgPath selectedIdxs ;;; ret tt
   else ret tt) ;;;
  ok c MsgExecuting ;;;
  runSelected c absPath selectedIdxs ;;;
  ok c MsgAllExecuted.

End Program.

(** ** Notions used to state the properties *)

(** The segments of the input of [parseNumbers], trimmed. *)
Definition segments (s : string) : list string :=
  map strings.TrimSpace (strings.Split s ",").

(** The tokens: the trimmed segments that are not empty. *)
Definition tokens (s : string) : list string :=
  filter (fun p => p <> EmptyString) (segments s).

(** The full sequence [1..N]. *)
Definition fullSequence (N : Z) : list Z := map Z.of_nat (seq 1 (Z.to_nat N)).

(** A token that is a base-10 integer [n] in [1, N]. *)
Definition validToken (N : Z) (p : string) (n : Z) : Prop :=
  strconv.Atoi p = Some n /\ 1 <= n <= N.

(** A list without its repetitions, every value at the place of its first
    occurrence. *)
Fixpoint firstOccurrences (l : list Z) : list Z :=
  match l with
  | [] => []
  | x :: rest => x :: filter (fun y => y <> x) (firstOccurrences rest)
  end.

(** The loop of [parseNumbers] on tokens, that is with the trimming done and
    the empty segments gone. *)
Fixpoint parseTokens (toks : list string) (max : Z) (out : list Z)
  : result (list Z) :=
  match toks with
  | [] => Ok (dedupe out)
  | p :: rest =>
      if decide (p = "0") then Ok (allIndices max)
      else match strconv.Atoi p with
           | None => Err (ErrInvalidNumber p)
           | Some n =>
               if (n <? 1) || (n >? max) then Err (ErrOutOfRange n)
               else parseTokens rest max (out ++ [n])
           end
  end.

(** An index of the catalog. *)
Definition inRange (i : Z) : Prop := 1 <= i <= lenTasks.

Definition inRangeb (i : Z) : bool := (1 <=? i) && (i <=? lenTasks).

(** A selection covers the catalog when every index of the catalog is in it. *)
Definition covers (last : list Z) : Prop := forall i, inRange i -> In i last.

(** The child processes that a selection stands for: one for every index of
    the catalog in it, in the order of the selection. *)
Definition launchesOf (absPath : string) (sel : list Z) : list Launch :=
  flat_map
    (fun i => match taskAt i with
              | Some t => if inRangeb i then [{| argv := Cmd t; dir := absPath |}] else []
              | None => []
              end)
    sel.

(** The labels of the tasks whose index in [last] is an index of the
    catalog, in the order of [last]. *)
Definition preChecked (last : list Z) : list string :=
  flat_map
    (fun i => match taskAt i with Some t => [Label t] | None => [] end)
    (filter inRange last).

(** What the loop over a selection prints, given the child processes
    started [before] it. *)
Fixpoint runLines (env : Env) (c : bool) (absPath : string)
    (before : list Launch) (sel : list Z) : list Line :=
  match sel with
  | [] => []
  | i :: rest =>
      match (if inRangeb i then taskAt i else None) with
      | None =>
          (if inRangeb i then [] else [{| lvl := Warn; coloured := c; text := MsgSkipping i |}])
          ++ runLines env c absPath before rest
      | Some t =>
          let l := {| argv := Cmd t; dir := absPath |} in
          [{| lvl := Step; coloured := c; text := MsgRunning (Cmd t) |};
           match cmd_Run env before l with
           | Some e => {| lvl := Failure; coloured := c; text := MsgErrorRunning (Label t) e |}
           | None => {| lvl := Success; coloured := c; text := MsgDone |}
           end]
          ++ runLines env c absPath (before ++ [l]) rest
      end
  end.

(** The error reports that a selection must lead to: one for every task
    of the selection whose child process fails, with the label of that task,
    in the order of the selection. *)
Fixpoint failuresOf (env : Env) (absPath : string)
    (before : list Launch) (sel : list Z) : list message :=
  match sel with
  | [] => []
  | i :: rest =>
      match (if inRangeb i then taskAt i else None) with
      | None => failuresOf env absPath before rest
      | Some t =>
          let l := {| argv := Cmd t; dir := absPath |} in
          match cmd_Run env before l with
          | Some e => [MsgErrorRunning (Label t) e]
          | None => []
          end ++ failuresOf env absPath (before ++ [l]) rest
      end
  end.

(** The texts of the lines printed by [errMsg]. *)
Definition errorLines (ls : list Line) : list message :=
  flat_map (fun l => match lvl l with Failure => [text l] | _ => [] end) ls.

(** A state with one more line on the console. *)
Definition printed (st : State) (l : level) (c : bool) (msg : message) : State :=
  {| files := files st;
     console := console st ++ [{| lvl := l; coloured := c; text := msg |}];
     launched := launched st |}.

(** The same world, except for the answer to whether files can be written. *)
Definition withWriteError (env : Env) (we : string -> option error) : Env :=
  {| filepath_Abs := filepath_Abs env;
     filepath_Join := filepath_Join env;
     filepath_Dir := filepath_Dir env;
     os_Stat := os_Stat env;
     os_UserConfigDir := os_UserConfigDir env;
     os_UserHomeDir := os_UserHomeDir env;
     time_Now := time_Now env;
     writeError := we;
     survey_AskOne := survey_AskOne env;
     cmd_Run := cmd_Run env |}.

(** An integer in the range of an [int]. *)
Definition isInt (n : Z) : Prop :=
  - 2 ^ (strconv.intSize - 1) <= n <= 2 ^ (strconv.intSize - 1) - 1.

(** A string of decimal digits. *)
Fixpoint allDigits (s : string) : bool :=
  match s with
  | EmptyString => true
  | String c rest => json.isDigit c && allDigits rest
  end.

(** The value that the encoder writes for a [[]int]. *)
Definition intsValue (l : list Z) : json.value :=
  match l with
  | [] => json.Null
  | _ => json.Array (map (fun n => json.Number (json.formatInt n)) l)
  end.

(** ** Example worlds *)

(** A world in which everything works, except that the command of the second
    task fails. *)
Definition exampleEnv : Env := {|
  filepath_Abs := fun _ => Ok "/srv/app";
  filepath_Join := fun a b => a +:+ "/" +:+ b;
  filepath_Dir := fun p => p;
  os_Stat := fun _ => true;
  os_UserConfigDir := Ok "/home/op/.config";
  os_UserHomeDir := Ok "/home/op";
  time_Now := "2026-10-30T20:05:00Z";
  writeError := fun _ => None;
  survey_AskOne := fun _ => Ok ["php artisan route:clear"];
  cmd_Run := fun _ l =>
    if decide (argv l = ["php"; "artisan"; "config:clear"])
    then Some (ErrOS "exit status 1") else None
|}.

(** The same world with a configuration directory that cannot be written. *)
Definition readOnlyEnv : Env :=
  withWriteError exampleEnv (fun _ => Some (ErrOS "permission denied")).

Definition examplePath : string := "/home/op/.config/artisan-runner.json".

Definition emptyState : State := {| files := ∅; console := []; launched := [] |}.

(** A preference record from a bigger catalog: [{"last_selections": [7, 2]}]. *)
Definition staleRecord : string :=
  "{" +:+ json.quote "last_selections" +:+ ": [7, 2]}".

Definition staleState : State :=
  {| files := {[ examplePath := staleRecord ]}; console := []; launched := [] |}.

Definition flagsNumbers (s : string) : Flags :=
  {| projectPath := "."; useLast := false; numbers := s;
     noColor := false; noSave := false |}.

Definition flagsUseLast : Flags :=
  {| projectPath := "."; useLast := true; numbers := EmptyString;
     noColor := false; noSave := false |}.

Definition flagsPicker : Flags :=
  {| projectPath := "."; useLast := false; numbers := EmptyString;
     noColor := false; noSave := false |}.

(** ** Notions used to state further properties *)

(** The indices that the loop over a selection has warned about. *)
Definition skippedIndices (ls : list Line) : list Z :=
  flat_map
    (fun l => match lvl l, text l with
              | Warn, MsgSkipping i => [i]
              | _, _ => []
              end)
    ls.

(** The flags with another answer to [--use-last]. *)
Definition withUseLast (fl : Flags) (b : bool) : Flags :=
  {| projectPath := projectPath fl; useLast := b; numbers := numbers fl;
     noColor := noColor fl; noSave := noSave fl |}.

(** The state in which [main] starts the loop over the selection [sel],
    when it had the state [st1] after the selection was determined. *)
Definition stateAfterSave (env : Env) (fl : Flags) (sel : list Z) (st1 : State) : State :=
  if noSave fl then st1
  else finalState (saveLastSelections env (configPath env) sel st1).

(** The same world with another operator in front of the picker. *)
Definition withAskOne (env : Env) (ask : MultiSelect -> result (list string)) : Env :=
  {| filepath_Abs := filepath_Abs env;
     filepath_Join := filepath_Join env;
     filepath_Dir := filepath_Dir env;
     os_Stat := os_Stat env;
     os_UserConfigDir := os_UserConfigDir env;
     os_UserHomeDir := os_UserHomeDir env;
     time_Now := time_Now env;
     writeError := writeError env;
     survey_AskOne := ask;
     cmd_Run := cmd_Run env |}.

(** The same state with other files. *)
Definition withFiles (st : State) (fs : gmap string string) : State :=
  {| files := fs; console := console st; launched := launched st |}.

(** The options of a prompt that are checked in advance, in the order of
    the options and once each: the answer of [survey.AskOne] when the
    operator accepts the prompt as it comes up. *)
Definition checkedOptions (p : MultiSelect) : list string :=
  match Default p with
  | Some def => filter (fun o => o ∈ def) (Options p)
  | None => []
  end.

(** A preference record with the third task in front of the first:
    [{"last_selections": [3, 1]}]. *)
Definition swappedState : State :=
  {| files := {[ examplePath := "{" +:+ json.quote "last_selections" +:+ ": [3, 1]}" ]};
     console := []; launched := [] |}.

(** ** The numeric prompt (not called by [main]) *)

(** [reader.ReadString('\n')] on what is left of the standard input: the
    bytes up to and with the first new line, or all of them when there is
    none (Go then returns [io.EOF] with them, which [numericPrompt] drops). *)
Fixpoint readLine (input : string) : string :=
  match input with
  | EmptyString => EmptyString
  | String c rest =>
      if Ascii.eqb c (ascii_of_N 10) then String c EmptyString
      else String c (readLine rest)
  end.

(** What [numericPrompt] prints: the prompt "Select by number
    (comma-separated, 0 for all): ", and "Error:" with an error. *)
Inductive promptOutput : Type :=
  | PromptSelect
  | PromptError (e : error).

(** [numericPrompt(max)], with the standard input as an argument: what it
    prints and what it returns ([nil] after an error). *)
Definition numericPrompt (stdin : string) (max : Z) : list promptOutput * list Z :=
  let text := readLine stdin in
  let text := strings.TrimSpace text in
  match parseNumbers text max with
  | Err err => ([PromptSelect; PromptError err], [])
  | Ok idxs => ([PromptSelect], idxs)
  end.

(** ** The run as a function of its selection source *)

(** The selection, or the error, that the [switch] of [main] comes to in a
    state. *)
Definition selectionSource (env : Env) (fl : Flags) (cfgPath : string) (st : State)
  : result (list Z) :=
  if negb (bool_decide (numbers fl = EmptyString)) then
    parseNumbers (numbers fl) lenTasks
  else if useLast fl then
    match loadLastSelections st cfgPath with
    | Err err => Err (ErrCouldNotLoad err)
    | Ok last => if decide (length last = 0%nat) then Err ErrNoLastSaved else Ok last
    end
  else
    match survey_AskOne env (pickerPrompt st cfgPath) with
    | Err err => Err err
    | Ok picks => Ok (translatePicks picks)
    end.


(** The flags with another answer to [--no-color]. *)
Definition withNoColor (fl : Flags) (b : bool) : Flags :=
  {| projectPath := projectPath fl; useLast := useLast fl; numbers := numbers fl;
     noColor := b; noSave := noSave fl |}.

(** A line without its colour. *)
Definition plain (l : Line) : level * message := (lvl l, text l).

(** The four ways in which [main] ends. *)
Inductive mainEnd (env : Env) (fl : Flags) (st : State) : Prop :=
  | EndUnresolved (e : error) :
      filepath_Abs env (projectPath fl) = Err e ->
      main env fl st
      = Exited 1 (printed st Failure (negb (noColor fl)) (MsgError (ErrUnableToResolve e))) ->
      mainEnd env fl st
  | EndNoSelection (absPath : string) (st1 : State) (e : error) :
      resolveProjectPath env fl (negb (noColor fl)) st = Returned absPath st1 ->
      determineSelections env fl (negb (noColor fl)) (configPath env) st1
      = Exited 1 (printed st1 Failure (negb (noColor fl)) (MsgError e)) ->
      main env fl st = Exited 1 (printed st1 Failure (negb (noColor fl)) (MsgError e)) ->
      mainEnd env fl st
  | EndEmpty (absPath : string) (st1 : State) :
      resolveProjectPath env fl (negb (noColor fl)) st = Returned absPath st1 ->
      determineSelections env fl (negb (noColor fl)) (configPath env) st1 = Returned [] st1 ->
      main env fl st
      = Exited 1 (printed st1 Failure (negb (noColor fl)) (MsgError ErrNoCommands)) ->
      mainEnd env fl st
  | EndRun (absPath : string) (st1 : State) (sel : list Z) :
      resolveProjectPath env fl (negb (noColor fl)) st = Returned absPath st1 ->
      determineSelections env fl (negb (noColor fl)) (configPath env) st1 = Returned sel st1 ->
      sel <> [] ->
      mainEnd env fl st.


(** * Properties *)

(** ** The library functions on examples *)

Example Split_commas :
  strings.Split "1, 2,,3" "," = ["1"; " 2"; EmptyString; "3"].
Proof. reflexivity. Qed.

Example Split_empty : strings.Split EmptyString "," = [EmptyString].
Proof. reflexivity. Qed.

(** A no-break space (C2 A0) in front, a tab and an ideographic space
    (E3 80 80) behind. *)
Example TrimSpace_runes :
  strings.TrimSpace
    (String (strings.byte 194) (String (strings.byte 160)
       (" 7" +:+ String (strings.byte 9)
          (String (strings.byte 227) (String (strings.byte 128)
             (String (strings.byte 128) EmptyString))))))
  = "7".
Proof. reflexivity. Qed.

(** A continuation byte alone is no rune and stays. *)
Example TrimSpace_invalid :
  strings.TrimSpace (" 7" +:+ String (strings.byte 128) " ")
  = "7" +:+ String (strings.byte 128) EmptyString.
Proof. reflexivity. Qed.

Example Atoi_examples :
  strconv.Atoi "+7" = Some 7 /\ strconv.Atoi "-0" = Some 0
  /\ strconv.Atoi "007" = Some 7 /\ strconv.Atoi "7 " = None
  /\ strconv.Atoi "-" = None /\ strconv.Atoi EmptyString = None
  /\ strconv.Atoi "9223372036854775807" = Some 9223372036854775807
  /\ strconv.Atoi "9223372036854775808" = None.
Proof. repeat split; reflexivity. Qed.

(** ** The selection parser *)

Lemma appendFrom_seq (n : nat) : forall (a : nat) (out : list Z),
  appendFrom (Z.of_nat a) n out = out ++ map Z.of_nat (seq a n).
Proof.
  induction n as [|n IH]; intros a out; simpl.
  - by rewrite app_nil_r.
  - replace (Z.of_nat a + 1) with (Z.of_nat (S a)) by lia.
    rewrite IH, <- app_assoc. reflexivity.
Qed.

(** The loop of the run-all branch builds the full sequence. *)
Lemma allIndices_fullSequence (N : Z) : allIndices N = fullSequence N.
Proof. unfold allIndices, fullSequence. apply (appendFrom_seq _ 1%nat []). Qed.

Lemma filter_firstOccurrences (P : Z -> Prop) `{!forall x, Decision (P x)} (l : list Z) :
  filter P (firstOccurrences l) = firstOccurrences (filter P l).
Proof.
  induction l as [|x l IH]; [reflexivity|].
  simpl. rewrite !filter_cons. destruct (decide (P x)) as [HP|HP]; simpl.
  - f_equal. rewrite <- IH, !list_filter_filter.
    apply list_filter_iff. naive_solver.
  - rewrite <- IH, list_filter_filter.
    apply list_filter_iff. intros y. split; [naive_solver|].
    intros Hy. split; [exact Hy|]. congruence.
Qed.

Lemma dedupe_loop_spec (l : list Z) : forall (seen : gset Z) (out : list Z),
  dedupe_loop l seen out = out ++ firstOccurrences (filter (fun v => v ∉ seen) l).
Proof.
  induction l as [|v l IH]; intros seen out; simpl.
  - by rewrite app_nil_r.
  - rewrite filter_cons. destruct (decide (v ∈ seen)) as [Hin|Hnin].
    + rewrite decide_False by naive_solver. apply IH.
    + rewrite decide_True by naive_solver. rewrite IH, <- app_assoc. simpl.
      do 2 f_equal. rewrite filter_firstOccurrences, list_filter_filter.
      f_equal. apply list_filter_iff. intros y. set_solver.
Qed.

(** [dedupe] keeps the first occurrence of every value, in order. *)
Lemma dedupe_firstOccurrences (l : list Z) : dedupe l = firstOccurrences l.
Proof.
  unfold dedupe. rewrite dedupe_loop_spec. simpl. f_equal.
  induction l as [|x l IH]; [reflexivity|].
  rewrite filter_cons, decide_True by set_solver. by rewrite IH.
Qed.

Lemma firstOccurrences_elem (l : list Z) (x : Z) :
  x ∈ firstOccurrences l <-> x ∈ l.
Proof.
  induction l as [|y l IH]; simpl; [reflexivity|].
  rewrite !elem_of_cons, list_elem_of_filter, IH.
  destruct (decide (x = y)); naive_solver.
Qed.

Lemma firstOccurrences_NoDup (l : list Z) : NoDup (firstOccurrences l).
Proof.
  induction l as [|y l IH]; simpl; constructor.
  - rewrite list_elem_of_filter. naive_solver.
  - by apply NoDup_filter.
Qed.

(** The loop sees only the tokens. *)
Lemma parseNumbers_loop_tokens (parts : list string) (max : Z) : forall out,
  parseNumbers_loop parts max out
  = parseTokens (filter (fun p => p <> EmptyString) (map strings.TrimSpace parts)) max out.
Proof.
  induction parts as [|p parts IH]; intros out; [reflexivity|].
  simpl. rewrite filter_cons.
  destruct (decide (strings.TrimSpace p = EmptyString)) as [He|Hne].
  - assert (Hn : ~ (strings.TrimSpace p <> EmptyString)) by (intros Hq; apply Hq; exact He).
    rewrite (decide_False _ _ Hn). apply IH.
  - rewrite (decide_True _ _ Hne). cbn [parseTokens].
    destruct (decide (strings.TrimSpace p = "0")); [reflexivity|].
    destruct (strconv.Atoi _); [|reflexivity].
    destruct (_ || _); [reflexivity|]. apply IH.
Qed.

Lemma parseNumbers_tokens (s : string) (max : Z) :
  parseNumbers s max = parseTokens (tokens s) max [].
Proof. apply parseNumbers_loop_tokens. Qed.

Lemma validToken_not_zero (N : Z) (p : string) (n : Z) :
  validToken N p n -> p <> "0".
Proof. intros [Ha Hr] ->. vm_compute in Ha. injection Ha as <-. lia. Qed.

(** Tokens that are integers in range are appended and the loop goes on. *)
Lemma parseTokens_valid_prefix (N : Z) (pre : list string) : forall ns post out,
  Forall2 (validToken N) pre ns ->
  parseTokens (pre ++ post) N out = parseTokens post N (out ++ ns).
Proof.
  induction pre as [|p pre IH]; intros ns post out H; inversion H; subst; simpl.
  - by rewrite app_nil_r.
  - match goal with Hv : validToken _ _ _ |- _ =>
      pose proof (validToken_not_zero _ _ _ Hv); destruct Hv as [-> Hr] end.
    rewrite decide_False by assumption.
    replace ((y <? 1) || (y >? N)) with false by lia.
    erewrite IH by eassumption. by rewrite <- app_assoc.
Qed.

(** The first token that is not an integer in range, when it is not the
    literal [0], ends the loop with the error that names it. *)
Lemma parseTokens_first_bad (N : Z) (pre : list string) (p : string)
    (post : list string) (ns out : list Z) :
  Forall2 (validToken N) pre ns ->
  p <> "0" ->
  (forall n, ~ validToken N p n) ->
  parseTokens (pre ++ p :: post) N out
  = Err (match strconv.Atoi p with
         | None => ErrInvalidNumber p
         | Some n => ErrOutOfRange n
         end).
Proof.
  intros Hpre Hp Hbad. rewrite (parseTokens_valid_prefix _ _ _ _ _ Hpre). simpl.
  rewrite decide_False by assumption.
  destruct (strconv.Atoi p) as [n|] eqn:Ha; [|reflexivity].
  destruct ((n <? 1) || (n >? N)) eqn:Hr; [reflexivity|].
  exfalso. apply (Hbad n). split; [assumption|lia].
Qed.

(** The literal [0] ends the loop with the full sequence, whatever follows. *)
Lemma parseTokens_zero (N : Z) (pre post : list string) (ns out : list Z) :
  Forall2 (validToken N) pre ns ->
  parseTokens (pre ++ "0" :: post) N out = Ok (fullSequence N).
Proof.
  intros Hpre. rewrite (parseTokens_valid_prefix _ _ _ _ _ Hpre). simpl.
  by rewrite allIndices_fullSequence.
Qed.

(** Without the literal [0], a result is made of the tokens, all of them
    integers in range. *)
Lemma parseTokens_no_zero (N : Z) (toks : list string) : forall out l,
  ~ In "0" toks ->
  parseTokens toks N out = Ok l ->
  exists ns, Forall2 (validToken N) toks ns /\ l = dedupe (out ++ ns).
Proof.
  induction toks as [|p toks IH]; intros out l Hz H; simpl in *.
  - exists []. split; [constructor|]. rewrite app_nil_r. congruence.
  - destruct (decide (p = "0")) as [->|Hp]; [exfalso; auto|].
    destruct (strconv.Atoi p) as [n|] eqn:Ha; [|discriminate].
    destruct ((n <? 1) || (n >? N)) eqn:Hr; [discriminate|].
    destruct (IH (out ++ [n]) l) as (ns & Hns & Hl); [auto|assumption|].
    exists (n :: ns). split.
    + constructor; [|assumption]. split; [assumption|lia].
    + by rewrite <- app_assoc in Hl.
Qed.

(** C1, as the spec states it, fails: an invalid token in front of the [0]
    is met first and fails the parse. *)
Lemma zero_overrides_all_counterexample :
  In "0" (tokens "x,0")
  /\ parseNumbers "x,0" 4 = Err (ErrInvalidNumber "x")
  /\ parseNumbers "x,0" 4 <> Ok (fullSequence 4).
Proof. split; [|split]; [vm_compute; auto | reflexivity | discriminate]. Qed.

(** C1 (amended): when the input has a token [0] and every token in front of
    the first one is a base-10 integer in [1, N], [parseNumbers] yields the
    full sequence [1..N], whatever tokens follow the [0]. *)
Theorem parseNumbers_zero_after_valid (s : string) (N : Z)
    (pre post : list string) (ns : list Z) :
  tokens s = pre ++ "0" :: post ->
  Forall2 (validToken N) pre ns ->
  parseNumbers s N = Ok (fullSequence N).
Proof.
  intros Ht Hpre. rewrite parseNumbers_tokens, Ht.
  eapply parseTokens_zero; eassumption.
Qed.

Lemma parseNumbers_zero_after_valid_witness :
  parseNumbers "2, 0 ,x,9" 4 = Ok (fullSequence 4).
Proof.
  apply (parseNumbers_zero_after_valid "2, 0 ,x,9" 4 ["2"] ["x"; "9"] [2]).
  - reflexivity.
  - constructor; [|constructor]. split; [reflexivity|lia].
Defined.

(** C5: when every token of the input is a base-10 integer in [1, N],
    [parseNumbers] succeeds with these integers, each kept at its first
    occurrence: the result has no repetition and the same members. *)
Theorem parseNumbers_valid_list (s : string) (N : Z) (ns : list Z) :
  Forall2 (validToken N) (tokens s) ns ->
  parseNumbers s N = Ok (firstOccurrences ns)
  /\ NoDup (firstOccurrences ns)
  /\ (forall x, In x (firstOccurrences ns) <-> In x ns).
Proof.
  intros H. split; [|split].
  - rewrite parseNumbers_tokens.
    rewrite <- (app_nil_r (tokens s)), (parseTokens_valid_prefix _ _ _ _ _ H).
    simpl. by rewrite dedupe_firstOccurrences.
  - apply firstOccurrences_NoDup.
  - intros x. rewrite <- !list_elem_of_In. apply firstOccurrences_elem.
Qed.

Lemma parseNumbers_valid_list_witness :
  parseNumbers "2,4,2" 4 = Ok [2; 4].
Proof.
  apply (parseNumbers_valid_list "2,4,2" 4 [2; 4; 2]).
  repeat constructor; lia.
Defined.

(** C6, as the spec states it, fails: after a token [0] nothing is looked
    at any more, so a bad token behind it does not fail the parse. *)
Lemma bad_token_fails_counterexample :
  In "x" (tokens "0,x")
  /\ strconv.Atoi "x" = None
  /\ parseNumbers "0,x" 4 = Ok [1; 2; 3; 4].
Proof. split; [|split]; [vm_compute; auto | reflexivity | reflexivity]. Qed.

(** C6 (amended): when the first token that is not a base-10 integer in
    [1, N] is not the literal [0] and no [0] stands in front of it,
    [parseNumbers] fails and returns no list; the error names that token
    when it is no integer, and its value when it is out of range. *)
Theorem parseNumbers_first_bad_token (s : string) (N : Z)
    (pre : list string) (p : string) (post : list string) (ns : list Z) :
  tokens s = pre ++ p :: post ->
  Forall2 (validToken N) pre ns ->
  p <> "0" ->
  (forall n, ~ validToken N p n) ->
  parseNumbers s N
  = Err (match strconv.Atoi p with
         | None => ErrInvalidNumber p
         | Some n => ErrOutOfRange n
         end).
Proof.
  intros Ht Hpre Hp Hbad. rewrite parseNumbers_tokens, Ht.
  eapply parseTokens_first_bad; eassumption.
Qed.

Lemma parseNumbers_first_bad_token_witness :
  parseNumbers "1, 5,x" 4 = Err (ErrOutOfRange 5).
Proof.
  apply (parseNumbers_first_bad_token "1, 5,x" 4 ["1"] "5" ["x"] [1]).
  - reflexivity.
  - constructor; [|constructor]. split; [reflexivity|lia].
  - discriminate.
  - intros n [Ha Hr]. vm_compute in Ha. injection Ha as <-. lia.
Defined.

(** C10: in the loop of [parseNumbers], a segment that is [0] after
    trimming gives the full sequence, and a segment that is another
    spelling of zero fails as out of range; so does the whole parse when
    such a token is the first that is not an integer in range.  Without a
    token [0] a result is never the run-all expansion: it is the listed
    integers, all in range. *)
Theorem only_literal_zero_runs_all :
  (forall p rest N out,
     strings.TrimSpace p = "0" ->
     parseNumbers_loop (p :: rest) N out = Ok (fullSequence N))
  /\ (forall p rest N out,
        strings.TrimSpace p <> "0" ->
        strconv.Atoi (strings.TrimSpace p) = Some 0 ->
        parseNumbers_loop (p :: rest) N out = Err (ErrOutOfRange 0))
  /\ (forall s N pre p post ns,
        tokens s = pre ++ p :: post ->
        Forall2 (validToken N) pre ns ->
        p <> "0" ->
        strconv.Atoi p = Some 0 ->
        parseNumbers s N = Err (ErrOutOfRange 0))
  /\ (forall s N l,
        ~ In "0" (tokens s) ->
        parseNumbers s N = Ok l ->
        exists ns, Forall2 (validToken N) (tokens s) ns /\ l = firstOccurrences ns)
  /\ parseNumbers "00" 4 = Err (ErrOutOfRange 0)
  /\ parseNumbers "+0" 4 = Err (ErrOutOfRange 0)
  /\ parseNumbers "-0" 4 = Err (ErrOutOfRange 0).
Proof.
  repeat split; try reflexivity.
  - intros p rest N out Hp. simpl. rewrite Hp. simpl.
    by rewrite allIndices_fullSequence.
  - intros p rest N out Hp Ha. simpl.
    destruct (decide (strings.TrimSpace p = EmptyString)) as [He|_].
    { rewrite He in Ha. discriminate. }
    rewrite decide_False by assumption. rewrite Ha. reflexivity.
  - intros s N pre p post ns Ht Hpre Hp Ha.
    rewrite parseNumbers_tokens, Ht.
    rewrite (parseTokens_first_bad N pre p post ns [] Hpre Hp).
    + by rewrite Ha.
    + intros n [Ha' Hr]. rewrite Ha in Ha'. injection Ha' as <-. lia.
  - intros s N l Hz H. rewrite parseNumbers_tokens in H.
    destruct (parseTokens_no_zero _ _ _ _ Hz H) as (ns & Hns & ->).
    exists ns. split; [assumption|]. apply dedupe_firstOccurrences.
Qed.

Lemma only_literal_zero_runs_all_witness :
  parseNumbers_loop [" 0 "; "7"] 4 [2] = Ok (fullSequence 4)
  /\ parseNumbers_loop [" 00"; "0"] 4 [2] = Err (ErrOutOfRange 0)
  /\ parseNumbers "3,-0,0" 4 = Err (ErrOutOfRange 0).
Proof.
  destruct only_literal_zero_runs_all as (H1 & H2 & H3 & _).
  split; [|split].
  - apply H1. reflexivity.
  - apply H2; [discriminate|reflexivity].
  - apply (H3 "3,-0,0" 4 ["3"] "-0" ["0"] [3]).
    + reflexivity.
    + constructor; [|constructor]. split; [reflexivity|lia].
    + discriminate.
    + reflexivity.
Defined.

(** ** The executor *)

Lemma inRangeb_guard (i : Z) : (i <? 1) || (i >? lenTasks) = negb (inRangeb i).
Proof. unfold inRangeb. lia. Qed.

Lemma inRangeb_spec (i : Z) : inRangeb i = true <-> inRange i.
Proof. unfold inRangeb, inRange. lia. Qed.

(** The loop over the selection returns, whatever the child processes do;
    it leaves the files alone, prints [runLines] and starts [launchesOf]. *)
Lemma runSelected_spec (env : Env) (c : bool) (absPath : string) (sel : list Z) :
  forall st,
    runSelected env c absPath sel st
    = Returned tt {| files := files st;
                     console := console st ++ runLines env c absPath (launched st) sel;
                     launched := launched st ++ launchesOf absPath sel |}.
Proof.
  induction sel as [|i sel IH]; intros st; simpl.
  - unfold ret. rewrite !app_nil_r. by destruct st.
  - unfold bind at 1. rewrite inRangeb_guard.
    destruct (inRangeb i) eqn:Hi; simpl.
    + destruct (taskAt i) as [t|] eqn:Ht; simpl.
      * unfold bind, step, println, runCommand; simpl.
        destruct (cmd_Run env (launched st) _); unfold errMsg, ok, println;
          rewrite IH; simpl; by rewrite <- !app_assoc.
      * unfold ret. rewrite IH. reflexivity.
    + unfold warn, println. rewrite IH. simpl.
      destruct (taskAt i); simpl; by rewrite <- app_assoc.
Qed.

Lemma skippedIndices_app (a b : list Line) :
  skippedIndices (a ++ b) = skippedIndices a ++ skippedIndices b.
Proof. unfold skippedIndices. apply flat_map_app. Qed.

(** The warnings of the loop are about the indices outside the catalog,
    in the order of the selection. *)
Lemma skippedIndices_runLines (env : Env) (c : bool) (absPath : string) (sel : list Z) :
  forall before,
    skippedIndices (runLines env c absPath before sel)
    = filter (fun i => ~ inRange i) sel.
Proof.
  induction sel as [|i sel IH]; intros before; [reflexivity|].
  cbn [runLines]. rewrite filter_cons. destruct (inRangeb i) eqn:Hi.
  - rewrite decide_False by (apply inRangeb_spec in Hi; tauto).
    destruct (taskAt i) as [t|].
    + rewrite skippedIndices_app, IH.
      by destruct (cmd_Run env before _).
    + rewrite skippedIndices_app, IH. reflexivity.
  - rewrite decide_True by (rewrite <- inRangeb_spec; congruence).
    rewrite skippedIndices_app, IH. reflexivity.
Qed.

Lemma errorLines_app (a b : list Line) :
  errorLines (a ++ b) = errorLines a ++ errorLines b.
Proof. unfold errorLines. apply flat_map_app. Qed.

(** The error lines of the loop are the reports of the failed tasks. *)
Lemma errorLines_runLines (env : Env) (c : bool) (absPath : string) (sel : list Z) :
  forall before,
    errorLines (runLines env c absPath before sel) = failuresOf env absPath before sel.
Proof.
  induction sel as [|i sel IH]; intros before; [reflexivity|].
  simpl. destruct (inRangeb i); [destruct (taskAt i) as [t|]|]; simpl.
  - rewrite IH. by destruct (cmd_Run env before _).
  - apply IH.
  - apply IH.
Qed.

(** Every child process comes from an index of the catalog in the selection. *)
Lemma launchesOf_in (absPath : string) (sel : list Z) (l : Launch) :
  In l (launchesOf absPath sel) ->
  exists i t, In i sel /\ inRange i /\ taskAt i = Some t
              /\ l = {| argv := Cmd t; dir := absPath |}.
Proof.
  unfold launchesOf. rewrite in_flat_map. intros (i & Hi & Hl).
  destruct (taskAt i) as [t|] eqn:Ht; [|destruct Hl].
  destruct (inRangeb i) eqn:Hr; [|destruct Hl].
  destruct Hl as [<-|[]]. exists i, t. by rewrite <- inRangeb_spec.
Qed.

(** The start of [main]: it fails when the path cannot be resolved, and
    prints one or two lines otherwise. *)
Lemma resolveProjectPath_spec (env : Env) (fl : Flags) (c : bool) (st : State) :
  resolveProjectPath env fl c st
  = match filepath_Abs env (projectPath fl) with
    | Err e => Exited 1 (printed st Failure c (MsgError (ErrUnableToResolve e)))
    | Ok p =>
        let st1 := printed st Info c (MsgProjectPath p) in
        Returned p (if os_Stat env (filepath_Join env p "artisan") then st1
                    else printed st1 Warn c MsgArtisanMissing)
    end.
Proof.
  unfold resolveProjectPath, bind, fail, errMsg, info, warn, println, os_Exit, ret, fileExists.
  destruct (filepath_Abs env (projectPath fl)); simpl; [|reflexivity].
  by destruct (os_Stat env _).
Qed.

Lemma resolveProjectPath_returned (env : Env) (fl : Flags) (c : bool) (st st1 : State)
    (absPath : string) :
  resolveProjectPath env fl c st = Returned absPath st1 ->
  filepath_Abs env (projectPath fl) = Ok absPath
  /\ files st1 = files st /\ launched st1 = launched st
  /\ errorLines (console st1) = errorLines (console st).
Proof.
  rewrite resolveProjectPath_spec.
  destruct (filepath_Abs env (projectPath fl)); [|discriminate].
  simpl. intros [= <- <-].
  destruct (os_Stat env _); simpl; rewrite ?errorLines_app; simpl;
    by rewrite ?app_nil_r.
Qed.

(** The [switch] either returns a selection and leaves the state as it is,
    or prints an error and leaves with status 1. *)
Lemma determineSelections_cases (env : Env) (fl : Flags) (c : bool)
    (cfgPath : string) (st : State) :
  (exists sel, determineSelections env fl c cfgPath st = Returned sel st)
  \/ (exists e, determineSelections env fl c cfgPath st
                = Exited 1 (printed st Failure c (MsgError e))).
Proof.
  unfold determineSelections.
  destruct (negb (bool_decide (numbers fl = EmptyString))).
  { destruct (parseNumbers _ _); [left|right]; eauto. }
  destruct (useLast fl).
  { destruct (loadLastSelections _ _) as [last|e]; [|right; eauto].
    destruct (decide (length last = 0%nat)); [right|left]; eauto. }
  destruct (survey_AskOne env _); [left|right]; eauto.
Qed.

Lemma determineSelections_returned (env : Env) (fl : Flags) (c : bool)
    (cfgPath : string) (st st' : State) (sel : list Z) :
  determineSelections env fl c cfgPath st = Returned sel st' -> st' = st.
Proof.
  destruct (determineSelections_cases env fl c cfgPath st) as [[sel' H]|[e H]];
    rewrite H; congruence.
Qed.

(** Saving returns to its caller, with the error of the write if there is
    one, and changes nothing but the files. *)
Lemma saveLastSelections_spec (env : Env) (path : string) (idxs : list Z) (st : State) :
  exists r st',
    saveLastSelections env path idxs st = Returned r st'
    /\ console st' = console st /\ launched st' = launched st.
Proof.
  unfold saveLastSelections, json.MarshalIndent, bind, os_MkdirAll, ret, os_WriteFile.
  destruct (decide (path = EmptyString)); [eauto|].
  destruct (writeError env path); eauto.
Qed.

(** A run that gets past the start and the [switch] with a selection that
    is not empty goes through the whole selection and returns. *)
Lemma main_run (env : Env) (fl : Flags) (st st1 st2 : State) (absPath : string)
    (sel : list Z) :
  let c := negb (noColor fl) in
  resolveProjectPath env fl c st = Returned absPath st1 ->
  determineSelections env fl c (configPath env) st1 = Returned sel st2 ->
  sel <> [] ->
  exists stF,
    main env fl st = Returned tt stF
    /\ console stF
       = console st1
         ++ [{| lvl := Success; coloured := c; text := MsgExecuting |}]
         ++ runLines env c absPath (launched st) sel
         ++ [{| lvl := Success; coloured := c; text := MsgAllExecuted |}]
    /\ launched stF = launched st ++ launchesOf absPath sel.
Proof.
  intros c Hres Hdet Hsel.
  pose proof (determineSelections_returned _ _ _ _ _ _ _ Hdet) as ->.
  destruct (resolveProjectPath_returned _ _ _ _ _ _ Hres) as (_ & _ & Hl & _).
  unfold main, newColorizer. fold c.
  unfold bind at 1. rewrite Hres.
  unfold bind at 1. rewrite Hdet.
  unfold bind at 1.
  destruct (decide (length sel = 0%nat)) as [H0|_].
  { destruct sel; [congruence|discriminate]. }
  unfold ret at 1. unfold bind at 1.
  destruct (saveLastSelections_spec env (configPath env) sel st1) as (r & st3 & Hs & Hc3 & Hl3).
  assert (exists st4, (if negb (noSave fl)
                       then saveLastSelections env (configPath env) sel;;; ret ()
                       else ret ()) st1 = Returned tt st4
                      /\ console st4 = console st1 /\ launched st4 = launched st1)
    as (st4 & -> & Hc4 & Hl4).
  { destruct (negb (noSave fl)).
    - unfold bind, ret. rewrite Hs. eauto.
    - unfold ret. eauto. }
  unfold bind, ok, println. rewrite runSelected_spec. simpl.
  eexists. split; [reflexivity|]. simpl.
  rewrite Hc4, Hl4, Hl, <- !app_assoc. auto.
Qed.

(** ** The three sources of the selection *)

Lemma fullSequence_in_range (N : Z) : Forall (fun n => 1 <= n <= N) (fullSequence N).
Proof.
  unfold fullSequence. rewrite Forall_forall. intros n.
  rewrite list_elem_of_In, in_map_iff. intros (k & <- & Hk).
  apply in_seq in Hk. lia.
Qed.

(** A result of the loop of [parseNumbers] holds integers in range only. *)
Lemma parseTokens_in_range (N : Z) (toks : list string) : forall out l,
  Forall (fun n => 1 <= n <= N) out ->
  parseTokens toks N out = Ok l ->
  Forall (fun n => 1 <= n <= N) l.
Proof.
  induction toks as [|p toks IH]; intros out l Hout H; simpl in H.
  - injection H as <-. rewrite dedupe_firstOccurrences.
    rewrite Forall_forall in *. intros n Hn.
    apply Hout. by apply firstOccurrences_elem.
  - destruct (decide (p = "0")).
    { injection H as <-. rewrite allIndices_fullSequence. apply fullSequence_in_range. }
    destruct (strconv.Atoi p) as [m|]; [|discriminate].
    destruct ((m <? 1) || (m >? N)) eqn:Hr; [discriminate|].
    apply (IH (out ++ [m])); [|assumption].
    apply Forall_app. split; [assumption|]. constructor; [lia|constructor].
Qed.

Lemma parseNumbers_in_range (s : string) (N : Z) (l : list Z) :
  parseNumbers s N = Ok l -> Forall (fun n => 1 <= n <= N) l.
Proof.
  rewrite parseNumbers_tokens. apply parseTokens_in_range. constructor.
Qed.

Lemma indexOfLabel_bounds (p : string) (ts : list Task) : forall i j,
  indexOfLabel p ts i = Some j -> i + 1 <= j <= i + Z.of_nat (length ts).
Proof.
  induction ts as [|t ts IH]; intros i j H; simpl in H; [discriminate|].
  destruct (decide (Label t = p)).
  - injection H as <-. simpl. lia.
  - apply IH in H. simpl. lia.
Qed.

(** The picks translate into indices of the catalog. *)
Lemma translatePicks_in_range (picks : list string) :
  Forall inRange (translatePicks picks).
Proof.
  unfold translatePicks. destruct (existsb _ picks).
  - vm_compute. repeat constructor; discriminate.
  - assert (forall acc, Forall inRange acc ->
              Forall inRange
                (fold_left (fun sel p => match indexOfLabel p tasks 0 with
                                         | Some i => sel ++ [i]
                                         | None => sel
                                         end) picks acc)) as H.
    { induction picks as [|p picks IH]; intros acc Hacc; cbn [fold_left]; [assumption|].
      apply IH. destruct (indexOfLabel p tasks 0) as [i|] eqn:Hi; [|assumption].
      apply Forall_app. split; [assumption|]. constructor; [|constructor].
      apply indexOfLabel_bounds in Hi. unfold inRange, lenTasks. lia. }
    apply H. constructor.
Qed.

(** C2, as the spec states it, fails for the selection loaded under
    [--use-last]: it is passed on as the file holds it.  Here the file
    holds the indices 7 and 2; the selection is [7; 2], and the loop skips
    the 7 with a warning and runs the second task. *)
Lemma selection_in_range_counterexample :
  determineSelections exampleEnv flagsUseLast true examplePath staleState
  = Returned [7; 2] staleState
  /\ ~ inRange 7
  /\ console (finalState (main exampleEnv flagsUseLast staleState))
     = [ {| lvl := Info; coloured := true; text := MsgProjectPath "/srv/app" |};
         {| lvl := Success; coloured := true; text := MsgExecuting |};
         {| lvl := Warn; coloured := true; text := MsgSkipping 7 |};
         {| lvl := Step; coloured := true;
            text := MsgRunning ["php"; "artisan"; "config:clear"] |};
         {| lvl := Failure; coloured := true;
            text := MsgErrorRunning "php artisan config:clear" (ErrOS "exit status 1") |};
         {| lvl := Success; coloured := true; text := MsgAllExecuted |} ].
Proof.
  split; [|split].
  - vm_compute. reflexivity.
  - unfold inRange. vm_compute. intros [_ H]. apply H. reflexivity.
  - vm_compute. reflexivity.
Qed.

(** C2 (amended): a selection that comes from the numeric parse or from the
    interactive picker holds indices in [1, N] only.  A selection loaded
    under [--use-last] is the stored list as it is, without a check.  The
    loop over the selection skips every index outside [1, N] with a
    warning (the warnings it prints are about these indices, one for each
    and in their order), and starts a child process for the indices in
    [1, N] and for no other. *)
Theorem selection_indices_in_range :
  (forall env fl c cfgPath st sel st',
     numbers fl <> EmptyString \/ useLast fl = false ->
     determineSelections env fl c cfgPath st = Returned sel st' ->
     Forall inRange sel)
  /\ (forall env fl c cfgPath st sel st',
        numbers fl = EmptyString -> useLast fl = true ->
        determineSelections env fl c cfgPath st = Returned sel st' ->
        loadLastSelections st cfgPath = Ok sel)
  /\ (forall env c absPath sel st,
        exists st',
          runSelected env c absPath sel st = Returned tt st'
          /\ skippedIndices (console st')
             = skippedIndices (console st) ++ filter (fun i => ~ inRange i) sel
          /\ launched st' = launched st ++ launchesOf absPath sel
          /\ forall l, In l (launchesOf absPath sel) ->
               exists i t, In i sel /\ inRange i /\ taskAt i = Some t
                           /\ l = {| argv := Cmd t; dir := absPath |}).
Proof.
  split; [|split].
  - intros env fl c cfgPath st sel st' Hsrc. unfold determineSelections.
    destruct (bool_decide (numbers fl = EmptyString)) eqn:Hn; simpl.
    + apply bool_decide_eq_true in Hn. destruct Hsrc as [Hsrc|Hsrc]; [congruence|].
      rewrite Hsrc.
      destruct (survey_AskOne env _); [|discriminate].
      intros [= <- _]. apply translatePicks_in_range.
    + destruct (parseNumbers _ _) as [l|] eqn:Hp; [|discriminate].
      intros [= <- _]. apply parseNumbers_in_range in Hp. exact Hp.
  - intros env fl c cfgPath st sel st' Hn Hu. unfold determineSelections.
    rewrite Hn, Hu. simpl.
    destruct (loadLastSelections st cfgPath) as [last|]; [|discriminate].
    destruct (decide (length last = 0%nat)); [discriminate|].
    by intros [= <- _].
  - intros env c absPath sel st. eexists. split; [apply runSelected_spec|].
    cbn [console launched].
    split; [by rewrite skippedIndices_app, skippedIndices_runLines|].
    split; [reflexivity|]. apply launchesOf_in.
Qed.

Lemma selection_indices_in_range_witness :
  Forall inRange [2; 4]
  /\ loadLastSelections staleState examplePath = Ok [7; 2]
  /\ exists st',
       runSelected exampleEnv true "/srv/app" [7; 2] staleState = Returned tt st'
       /\ skippedIndices (console st') = [7]
       /\ launched st' = [{| argv := ["php"; "artisan"; "config:clear"]; dir := "/srv/app" |}].
Proof.
  destruct selection_indices_in_range as (H1 & H2 & H3). split; [|split].
  - apply (H1 exampleEnv (flagsNumbers "2,4,2") true examplePath emptyState [2; 4] emptyState).
    + left. discriminate.
    + reflexivity.
  - apply (H2 exampleEnv flagsUseLast true examplePath staleState [7; 2] staleState);
      reflexivity.
  - destruct (H3 exampleEnv true "/srv/app" [7; 2] staleState) as (st' & Hr & Hs & Hl & _).
    exists st'. split; [exact Hr|]. split; [rewrite Hs|rewrite Hl]; reflexivity.
Defined.

(** ** The loop over the selection and the exit status *)

Lemma launchesOf_length (absPath : string) (sel : list Z) :
  Forall inRange sel -> length (launchesOf absPath sel) = length sel.
Proof.
  induction 1 as [|i sel Hi _ IH]; [reflexivity|].
  unfold launchesOf in *. cbn [flat_map]. rewrite length_app, IH.
  apply inRangeb_spec in Hi. rewrite Hi.
  assert (exists t, taskAt i = Some t) as [t ->]; [|reflexivity].
  apply inRangeb_spec in Hi. unfold inRange, lenTasks in Hi. simpl in Hi.
  unfold taskAt. replace (i <? 1) with false by lia.
  apply lookup_lt_is_Some_2. simpl. lia.
Qed.

(** C9: once a selection is resolved, [main] starts a child process for
    every index of the catalog in it, in the order of the selection and
    whatever the earlier ones did; an error is printed for a failed task,
    with its label, and for nothing else; and [main] returns, so the exit
    status is 0. *)
Theorem executor_continues_past_failures (env : Env) (fl : Flags)
    (st st1 st2 : State) (absPath : string) (sel : list Z) :
  resolveProjectPath env fl (negb (noColor fl)) st = Returned absPath st1 ->
  determineSelections env fl (negb (noColor fl)) (configPath env) st1 = Returned sel st2 ->
  sel <> [] ->
  exists stF,
    main env fl st = Returned tt stF
    /\ exitStatus (main env fl st) = 0
    /\ launched stF = launched st ++ launchesOf absPath sel
    /\ (Forall inRange sel -> length (launchesOf absPath sel) = length sel)
    /\ errorLines (console stF)
       = errorLines (console st) ++ failuresOf env absPath (launched st) sel.
Proof.
  intros Hres Hdet Hsel.
  destruct (main_run env fl st st1 st2 absPath sel Hres Hdet Hsel) as (stF & Hm & Hc & Hl).
  destruct (resolveProjectPath_returned _ _ _ _ _ _ Hres) as (_ & _ & _ & He).
  exists stF. rewrite Hm. repeat split; try assumption.
  - apply launchesOf_length.
  - rewrite Hc, !errorLines_app, He, errorLines_runLines. simpl.
    by rewrite app_nil_r.
Qed.

Lemma executor_continues_past_failures_witness :
  exists stF,
    main exampleEnv (flagsNumbers "2,1") emptyState = Returned tt stF
    /\ exitStatus (main exampleEnv (flagsNumbers "2,1") emptyState) = 0
    /\ launched stF
       = [ {| argv := ["php"; "artisan"; "config:clear"]; dir := "/srv/app" |};
           {| argv := ["php"; "artisan"; "optimize:clear"]; dir := "/srv/app" |} ]
    /\ (Forall inRange [2; 1] -> length (launchesOf "/srv/app" [2; 1]) = 2%nat)
    /\ errorLines (console stF)
       = [ MsgErrorRunning "php artisan config:clear" (ErrOS "exit status 1") ].
Proof.
  apply (executor_continues_past_failures exampleEnv (flagsNumbers "2,1") emptyState
           (printed emptyState Info true (MsgProjectPath "/srv/app"))
           (printed emptyState Info true (MsgProjectPath "/srv/app"))
           "/srv/app" [2; 1]).
  - reflexivity.
  - reflexivity.
  - discriminate.
Defined.

(** ** How [main] ends *)

Lemma main_exit_resolve (env : Env) (fl : Flags) (st s : State) (code : Z) :
  resolveProjectPath env fl (negb (noColor fl)) st = Exited code s ->
  main env fl st = Exited code s.
Proof. intros H. unfold main, newColorizer, bind. by rewrite H. Qed.

Lemma main_exit_determine (env : Env) (fl : Flags) (st st1 s : State)
    (absPath : string) (code : Z) :
  resolveProjectPath env fl (negb (noColor fl)) st = Returned absPath st1 ->
  determineSelections env fl (negb (noColor fl)) (configPath env) st1 = Exited code s ->
  main env fl st = Exited code s.
Proof. intros H1 H2. unfold main, newColorizer, bind. by rewrite H1, H2. Qed.

Lemma main_exit_empty (env : Env) (fl : Flags) (st st1 st2 : State) (absPath : string) :
  resolveProjectPath env fl (negb (noColor fl)) st = Returned absPath st1 ->
  determineSelections env fl (negb (noColor fl)) (configPath env) st1 = Returned [] st2 ->
  main env fl st
  = Exited 1 (printed st2 Failure (negb (noColor fl)) (MsgError ErrNoCommands)).
Proof. intros H1 H2. unfold main, newColorizer, bind. by rewrite H1, H2. Qed.

(** ** Saving the selection *)

Lemma runLines_withWriteError (env : Env) (we : string -> option error) (c : bool)
    (absPath : string) (sel : list Z) : forall before,
  runLines (withWriteError env we) c absPath before sel
  = runLines env c absPath before sel.
Proof.
  induction sel as [|i sel IH]; intros before; [reflexivity|].
  cbn [runLines]. destruct (if inRangeb i then taskAt i else None); by rewrite IH.
Qed.

(** Nothing that [main] prints or starts, and not its exit status, depends
    on whether the file can be written. *)
Lemma main_ignores_writeError (env : Env) (we : string -> option error)
    (fl : Flags) (st : State) :
  exitStatus (main (withWriteError env we) fl st) = exitStatus (main env fl st)
  /\ console (finalState (main (withWriteError env we) fl st))
     = console (finalState (main env fl st))
  /\ launched (finalState (main (withWriteError env we) fl st))
     = launched (finalState (main env fl st)).
Proof.
  set (env' := withWriteError env we).
  set (c := negb (noColor fl)).
  assert (Hres : resolveProjectPath env' fl c st = resolveProjectPath env fl c st).
  { by rewrite !resolveProjectPath_spec. }
  assert (Hdet : forall s, determineSelections env' fl c (configPath env') s
                           = determineSelections env fl c (configPath env) s).
  { reflexivity. }
  destruct (resolveProjectPath env fl c st) as [absPath st1|code st1] eqn:Hr.
  2:{ rewrite (main_exit_resolve env fl st st1 code Hr).
      rewrite (main_exit_resolve env' fl st st1 code Hres). auto. }
  destruct (determineSelections_cases env fl c (configPath env) st1) as [[sel Hd]|[e Hd]].
  2:{ rewrite (main_exit_determine env fl st st1 _ absPath 1 Hr Hd).
      rewrite (main_exit_determine env' fl st st1 _ absPath 1 Hres
                 (eq_trans (Hdet st1) Hd)).
      auto. }
  destruct sel as [|i sel].
  { rewrite (main_exit_empty env fl st st1 st1 absPath Hr Hd).
    rewrite (main_exit_empty env' fl st st1 st1 absPath Hres (eq_trans (Hdet st1) Hd)).
    auto. }
  destruct (main_run env fl st st1 st1 absPath (i :: sel) Hr Hd) as (stF & -> & Hc & Hl);
    [discriminate|].
  destruct (main_run env' fl st st1 st1 absPath (i :: sel)) as (stF' & -> & Hc' & Hl');
    [exact Hres | by rewrite Hdet | discriminate |].
  simpl. rewrite Hc, Hc', Hl, Hl'. unfold env'.
  rewrite runLines_withWriteError. auto.
Qed.

(** C3, as the spec states it, fails: in a world where the preference file
    cannot be written, [saveLastSelections] returns the error, and the run
    without [--no-save] prints no error, ends with status 0 and prints what
    it prints where the file can be written. *)
Lemma save_failure_surfaced_counterexample :
  noSave (flagsNumbers "1") = false
  /\ saveLastSelections readOnlyEnv examplePath [1]
       (printed emptyState Info true (MsgProjectPath "/srv/app"))
     = Returned (Some (ErrOS "permission denied"))
         (printed emptyState Info true (MsgProjectPath "/srv/app"))
  /\ exitStatus (main readOnlyEnv (flagsNumbers "1") emptyState) = 0
  /\ errorLines (console (finalState (main readOnlyEnv (flagsNumbers "1") emptyState))) = []
  /\ console (finalState (main readOnlyEnv (flagsNumbers "1") emptyState))
     = console (finalState (main exampleEnv (flagsNumbers "1") emptyState)).
Proof. repeat split; vm_compute; reflexivity. Qed.

(** C3 (amended): [saveLastSelections] returns the error of a refused write
    to its caller and leaves the state as it is; [main] drops that value:
    its exit status, the lines it prints and the child processes it starts
    are the same whether or not the file can be written. *)
Theorem save_failure_is_dropped :
  (forall env path idxs st e,
     path <> EmptyString ->
     writeError env path = Some e ->
     saveLastSelections env path idxs st = Returned (Some e) st)
  /\ (forall env we fl st,
        exitStatus (main (withWriteError env we) fl st) = exitStatus (main env fl st)
        /\ console (finalState (main (withWriteError env we) fl st))
           = console (finalState (main env fl st))
        /\ launched (finalState (main (withWriteError env we) fl st))
           = launched (finalState (main env fl st))).
Proof.
  split.
  - intros env path idxs st e Hp He.
    unfold saveLastSelections, json.MarshalIndent, bind, os_MkdirAll, ret, os_WriteFile.
    rewrite decide_False by assumption. by rewrite He.
  - apply main_ignores_writeError.
Qed.

Lemma save_failure_is_dropped_witness :
  saveLastSelections readOnlyEnv examplePath [1] emptyState
  = Returned (Some (ErrOS "permission denied")) emptyState.
Proof.
  apply (proj1 save_failure_is_dropped readOnlyEnv examplePath [1] emptyState).
  - discriminate.
  - reflexivity.
Defined.


(** ** The default of the picker *)

(** The loop that builds [def] appends the labels of the tasks whose index
    is in range. *)
Lemma defaultPicks_loop (last : list Z) : forall def,
  fold_left
    (fun def i =>
       if (1 <=? i) && (i <=? lenTasks) then
         match taskAt i with
         | Some t => def ++ [Label t]
         | None => def
         end
       else def)
    last def
  = def ++ preChecked last.
Proof.
  induction last as [|i last IH]; intros def; cbn [fold_left].
  - unfold preChecked. simpl. by rewrite app_nil_r.
  - rewrite IH. unfold preChecked. rewrite filter_cons.
    fold (inRangeb i). destruct (inRangeb i) eqn:Hi.
    + rewrite decide_True by (by apply inRangeb_spec). cbn [flat_map].
      destruct (taskAt i); simpl; by rewrite <- ?app_assoc.
    + rewrite decide_False; [reflexivity|].
      rewrite <- inRangeb_spec. congruence.
Qed.

(** The synthetic option is not the label of a task. *)
Lemma runAllLabel_not_preChecked (last : list Z) : ~ In runAllLabel (preChecked last).
Proof.
  unfold preChecked. rewrite in_flat_map. intros (i & _ & Hi).
  unfold taskAt in Hi. destruct (i <? 1); [destruct Hi|].
  destruct (Z.to_nat (i - 1)) as [|[|[|[|n]]]]; simpl in Hi;
    try (destruct Hi as [Hi|[]]; discriminate); destruct Hi.
Qed.

(** For a selection without repetitions and with indices of the catalog
    only, to have as many entries as the catalog is to cover it. *)
Lemma length_covers (last : list Z) :
  NoDup last -> Forall inRange last ->
  (length last = length tasks <-> covers last).
Proof.
  intros Hnd Hr.
  assert (Hall : forall i, inRange i <-> i ∈ fullSequence lenTasks).
  { intros i. unfold inRange. change lenTasks with 4. vm_compute fullSequence.
    rewrite !elem_of_cons, elem_of_nil. lia. }
  assert (Hnd4 : NoDup (fullSequence lenTasks)).
  { change lenTasks with 4. vm_compute fullSequence.
    repeat constructor; rewrite ?elem_of_cons, ?elem_of_nil; lia. }
  assert (Hle : (length last <= length tasks)%nat).
  { change (length tasks) with (length (fullSequence lenTasks)).
    apply submseteq_length, NoDup_submseteq; [assumption|].
    intros i Hi. apply Hall. rewrite Forall_forall in Hr. by apply Hr. }
  split.
  - intros Hlen i Hi. apply list_elem_of_In.
    destruct (decide (i ∈ last)) as [|Hni]; [assumption|exfalso].
    assert (Hsub : last ⊆+ filter (fun j => j <> i) (fullSequence lenTasks)).
    { apply NoDup_submseteq; [assumption|]. intros j Hj.
      apply list_elem_of_filter. split; [congruence|].
      apply Hall. rewrite Forall_forall in Hr. by apply Hr. }
    apply submseteq_length in Hsub.
    assert (Hlt : (length (filter (fun j => j <> i) (fullSequence lenTasks)) < 4)%nat).
    { apply Hall in Hi. change lenTasks with 4 in Hi |- *.
      vm_compute fullSequence in Hi |- *.
      rewrite !elem_of_cons, elem_of_nil in Hi.
      destruct Hi as [-> | [-> | [-> | [-> | []] ] ] ]; vm_compute; lia. }
    change (length tasks) with 4%nat in Hlen. lia.
  - intros Hc.
    assert (Hge : (length (fullSequence lenTasks) <= length last)%nat).
    { apply submseteq_length, NoDup_submseteq; [assumption|].
      intros i Hi. apply list_elem_of_In, Hc, Hall, Hi. }
    change (length (fullSequence lenTasks)) with (length tasks) in Hge. lia.
Qed.

(** C4, as the spec states it, fails: the test is on the length of the last
    selection.  Four times the index 1 does not cover a catalog of four, yet
    only the synthetic option is checked; and five indices that cover it
    check the labels, one of them twice. *)
Lemma default_covers_counterexample :
  defaultPicks [1; 1; 1; 1] = [runAllLabel]
  /\ ~ covers [1; 1; 1; 1]
  /\ covers [1; 2; 3; 4; 4]
  /\ defaultPicks [1; 2; 3; 4; 4]
     = [ "php artisan optimize:clear"; "php artisan config:clear";
         "php artisan route:clear"; "php artisan cache:clear";
         "php artisan cache:clear" ].
Proof.
  split; [reflexivity|]. split; [|split; [|reflexivity]].
  - intros H. assert (Hin : In 2 [1; 1; 1; 1]).
    { apply H. unfold inRange, lenTasks. simpl. lia. }
    simpl in Hin. intuition discriminate.
  - intros i. unfold inRange, lenTasks. simpl. intros Hi.
    assert (i = 1 \/ i = 2 \/ i = 3 \/ i = 4) as [-> | [-> | [-> | ->] ] ] by lia; simpl; auto 10.
Qed.

(** C4 (amended): from a loaded last selection that is not empty, the picker
    gets a default; only the synthetic option is checked if and only if the
    last selection has as many entries as the catalog; otherwise the labels
    of the tasks whose index is in [1, N] are checked, in the order of the
    last selection, and the other indices are passed over.  For a last
    selection without repetitions and with indices in [1, N] only, to have
    as many entries as the catalog is to cover it. *)
Theorem default_picks_by_length :
  (forall st cfgPath last,
     loadLastSelections st cfgPath = Ok last -> last <> [] ->
     Default (pickerPrompt st cfgPath) = Some (defaultPicks last))
  /\ (forall last, defaultPicks last = [runAllLabel] <-> length last = length tasks)
  /\ (forall last, length last <> length tasks -> defaultPicks last = preChecked last)
  /\ (forall last, NoDup last -> Forall inRange last ->
        (defaultPicks last = [runAllLabel] <-> covers last)).
Proof.
  assert (Helse : forall last, length last <> length tasks ->
                               defaultPicks last = preChecked last).
  { intros last Hlen. unfold defaultPicks. rewrite decide_False by assumption.
    apply (defaultPicks_loop last []). }
  assert (Hiff : forall last,
            defaultPicks last = [runAllLabel] <-> length last = length tasks).
  { intros last. split.
    - intros H. destruct (decide (length last = length tasks)) as [|Hlen]; [assumption|].
      exfalso. rewrite (Helse last Hlen) in H.
      apply (runAllLabel_not_preChecked last). rewrite H. by left.
    - intros Hlen. unfold defaultPicks. by rewrite decide_True. }
  split; [|split; [exact Hiff|split; [exact Helse|]]].
  - intros st cfgPath last Hload Hne. unfold pickerPrompt. rewrite Hload.
    rewrite decide_True; [reflexivity|]. destruct last; [congruence|simpl; lia].
  - intros last Hnd Hr. rewrite Hiff. by apply length_covers.
Qed.

Lemma default_picks_by_length_witness :
  Default (pickerPrompt staleState examplePath) = Some (defaultPicks [7; 2])
  /\ defaultPicks [7; 2] = ["php artisan config:clear"]
  /\ defaultPicks [4; 3; 2; 1] = [runAllLabel].
Proof.
  destruct default_picks_by_length as (H1 & H2 & H3 & _). split; [|split].
  - apply H1; [reflexivity|discriminate].
  - rewrite H3; [reflexivity|discriminate].
  - apply H2. reflexivity.
Defined.

(** ** [--use-last] without a usable record *)

(** C8, as the spec states it, fails in the text of the error: without a
    preference file the run ends with the error of the load, wrapped.  And
    [--numbers] goes first: with it, [--use-last] is not looked at, and the
    run goes through without a preference file. *)
Lemma use_last_no_record_counterexample :
  files emptyState !! examplePath = None
  /\ main exampleEnv flagsUseLast emptyState
     = Exited 1
         {| files := ∅;
            console :=
              [ {| lvl := Info; coloured := true; text := MsgProjectPath "/srv/app" |};
                {| lvl := Failure; coloured := true;
                   text := MsgError (ErrCouldNotLoad (ErrNotExist examplePath)) |} ];
            launched := [] |}
  /\ ErrCouldNotLoad (ErrNotExist examplePath) <> ErrNoLastSaved
  /\ exitStatus
       (main exampleEnv
          {| projectPath := "."; useLast := true; numbers := "1";
             noColor := false; noSave := true |}
          emptyState) = 0
  /\ launched
       (finalState
          (main exampleEnv
             {| projectPath := "."; useLast := true; numbers := "1";
                noColor := false; noSave := true |}
             emptyState))
     = [ {| argv := ["php"; "artisan"; "optimize:clear"]; dir := "/srv/app" |} ].
Proof. repeat split; try reflexivity. discriminate. Qed.

(** C8 (amended): under [--use-last] (and without [--numbers]), when the
    load of the last selection fails, as it does when there is no
    preference file, the run prints "could not load last selections" with
    the error of the load and ends with status 1; when the stored list is
    empty it prints "no last selections saved" and ends with status 1.  In
    both cases no child process is started and no file is written. *)
Theorem use_last_without_record (env : Env) (fl : Flags) (st st1 : State)
    (absPath : string) :
  numbers fl = EmptyString ->
  useLast fl = true ->
  resolveProjectPath env fl (negb (noColor fl)) st = Returned absPath st1 ->
  (files st !! configPath env = None ->
   loadLastSelections st (configPath env) = Err (ErrNotExist (configPath env)))
  /\ (forall e,
        loadLastSelections st (configPath env) = Err e ->
        main env fl st
        = Exited 1 (printed st1 Failure (negb (noColor fl)) (MsgError (ErrCouldNotLoad e))))
  /\ (loadLastSelections st (configPath env) = Ok [] ->
      main env fl st
      = Exited 1 (printed st1 Failure (negb (noColor fl)) (MsgError ErrNoLastSaved)))
  /\ launched st1 = launched st /\ files st1 = files st.
Proof.
  intros Hn Hu Hres.
  destruct (resolveProjectPath_returned _ _ _ _ _ _ Hres) as (_ & Hf & Hl & _).
  assert (Hload : loadLastSelections st1 (configPath env)
                  = loadLastSelections st (configPath env)).
  { unfold loadLastSelections, os_ReadFile. by rewrite Hf. }
  repeat split; try assumption.
  - intros Hnone. unfold loadLastSelections, os_ReadFile.
    destruct (decide (configPath env = EmptyString)); [reflexivity|].
    by rewrite Hnone.
  - intros e He. apply (main_exit_determine env fl st st1 _ absPath 1 Hres).
    unfold determineSelections. rewrite Hn, Hu. simpl. rewrite Hload, He. reflexivity.
  - intros He. apply (main_exit_determine env fl st st1 _ absPath 1 Hres).
    unfold determineSelections. rewrite Hn, Hu. simpl. rewrite Hload, He. reflexivity.
Qed.

Lemma use_last_without_record_witness :
  main exampleEnv flagsUseLast emptyState
  = Exited 1 (printed (printed emptyState Info true (MsgProjectPath "/srv/app"))
                Failure true (MsgError (ErrCouldNotLoad (ErrNotExist examplePath)))).
Proof.
  destruct (use_last_without_record exampleEnv flagsUseLast emptyState
              (printed emptyState Info true (MsgProjectPath "/srv/app")) "/srv/app")
    as (_ & H & _); [reflexivity..|].
  apply H. reflexivity.
Defined.

(** ** The preference record on disk *)

(** *** Integers as decimal numbers *)

Lemma string_of_uint_digits (u : Decimal.uint) :
  allDigits (NilEmpty.string_of_uint u) = true.
Proof. induction u; simpl; auto. Qed.

(** Reading the digits of [u] on top of a positive value. *)
Lemma digits_of_uint_acc (u : Decimal.uint) : forall acc : positive,
  strconv.digits (NilEmpty.string_of_uint u) (Z.pos acc)
  = Some (Z.pos (Pos.of_uint_acc u acc)).
Proof.
  induction u; intros acc; simpl; try reflexivity;
    unfold strconv.digit; simpl;
    match goal with
    | |- strconv.digits _ ?z = _ =>
        match goal with
        | |- _ = Some (Z.pos (Pos.of_uint_acc _ ?p)) =>
            replace z with (Z.pos p) by lia
        end
    end; apply IHu.
Qed.

Lemma digits_of_uint (u : Decimal.uint) :
  strconv.digits (NilEmpty.string_of_uint u) 0 = Some (Z.of_N (Pos.of_uint u)).
Proof.
  induction u; simpl; try reflexivity; unfold strconv.digit; simpl;
    try apply IHu; apply (digits_of_uint_acc u).
Qed.

(** The decimal digits of a positive number start with a digit that is not 0. *)
Lemma to_uint_head (p : positive) :
  exists c rest,
    NilEmpty.string_of_uint (Pos.to_uint p) = String c rest
    /\ json.isDigit c = true /\ Ascii.eqb c "0" = false
    /\ allDigits rest = true.
Proof.
  assert (Hn : Pos.to_uint p = Decimal.unorm (Pos.to_uint p)).
  { rewrite <- (Unsigned.to_of (Pos.to_uint p)), Unsigned.of_to. reflexivity. }
  pose proof (Unsigned.to_uint_nonzero p) as Hz.
  pose proof (nzhead_nonzero (Pos.to_uint p)) as Hh.
  pose proof (string_of_uint_digits (Pos.to_uint p)) as Hd.
  unfold Decimal.unorm in Hn.
  destruct (Decimal.nzhead (Pos.to_uint p)) eqn:Hnz;
    [ exfalso; apply Hz; exact Hn
    | exfalso; eapply Hh; reflexivity | .. ];
    rewrite Hn in Hd |- *; simpl in Hd |- *; eauto 10.
Qed.

Lemma formatInt_pos (p : positive) :
  json.formatInt (Z.pos p) = NilEmpty.string_of_uint (Pos.to_uint p).
Proof.
  unfold json.formatInt, NilZero.string_of_int, NilZero.string_of_uint. simpl.
  pose proof (Unsigned.to_uint_nonnil p). by destruct (Pos.to_uint p).
Qed.

Lemma formatInt_neg (p : positive) :
  json.formatInt (Z.neg p) = String "-" (NilEmpty.string_of_uint (Pos.to_uint p)).
Proof.
  unfold json.formatInt, NilZero.string_of_int, NilZero.string_of_uint. simpl.
  pose proof (Unsigned.to_uint_nonnil p). by destruct (Pos.to_uint p).
Qed.

Lemma skipDigits_allDigits (s : string) :
  allDigits s = true -> json.skipDigits s = EmptyString.
Proof.
  induction s as [|c s IH]; [reflexivity|]. simpl.
  destruct (json.isDigit c); [exact IH|discriminate].
Qed.

Ltac digit_cases c H :=
  destruct c as [[] [] [] [] [] [] [] []]; try discriminate H.

(** A digit that is not 0 and further digits make a number literal, and so
    does a minus sign in front of them. *)
Lemma validNumber_digits (c : ascii) (rest : string) :
  json.isDigit c = true -> Ascii.eqb c "0" = false -> allDigits rest = true ->
  json.validNumber (String c rest) = true
  /\ json.validNumber (String "-" (String c rest)) = true.
Proof.
  intros Hc H0 Hrest. pose proof (skipDigits_allDigits rest Hrest) as Hs.
  digit_cases c Hc; try discriminate H0;
    unfold json.validNumber; simpl; rewrite Hs; auto.
Qed.

Lemma validNumber_formatInt (n : Z) : json.validNumber (json.formatInt n) = true.
Proof.
  destruct n as [|p|p]; [reflexivity|..].
  - rewrite formatInt_pos. destruct (to_uint_head p) as (c & rest & -> & Hc & H0 & Hr).
    by apply validNumber_digits.
  - rewrite formatInt_neg. destruct (to_uint_head p) as (c & rest & -> & Hc & H0 & Hr).
    by apply validNumber_digits.
Qed.

(** [strconv.Atoi] reads back what [strconv.AppendInt] has written. *)
Lemma Atoi_formatInt (n : Z) : isInt n -> strconv.Atoi (json.formatInt n) = Some n.
Proof.
  unfold isInt. intros Hn. destruct n as [|p|p]; [reflexivity|..].
  - rewrite formatInt_pos.
    pose proof (digits_of_uint (Pos.to_uint p)) as Hd. rewrite Unsigned.of_to in Hd.
    destruct (to_uint_head p) as (c & rest & Heq & Hc & H0 & Hr). rewrite Heq in *.
    unfold strconv.Atoi.
    digit_cases c Hc; try discriminate H0; rewrite Hd; simpl Z.of_N;
      cbv beta iota; (rewrite andb_true_intro; [reflexivity|]); lia.
  - rewrite formatInt_neg.
    pose proof (digits_of_uint (Pos.to_uint p)) as Hd. rewrite Unsigned.of_to in Hd.
    destruct (to_uint_head p) as (c & rest & Heq & Hc & H0 & Hr). rewrite Heq in *.
    unfold strconv.Atoi. cbv beta iota. rewrite Hd. simpl Z.of_N. cbv beta iota.
    rewrite andb_true_intro; [reflexivity|]. lia.
Qed.

(** *** Scanning what the encoder has written *)

Lemma append_cons (c : ascii) (a b : string) : String c a +:+ b = String c (a +:+ b).
Proof. reflexivity. Qed.

Lemma append_empty_r (s : string) : s +:+ EmptyString = s.
Proof. induction s as [|c s IH]; [reflexivity|]. by rewrite append_cons, IH. Qed.

Lemma append_assoc (a b c : string) : (a +:+ b) +:+ c = a +:+ (b +:+ c).
Proof. induction a as [|x a IH]; [reflexivity|]. by rewrite !append_cons, IH. Qed.

Lemma rev_app_rev_app (s : string) : forall t u,
  String.rev_app (String.rev_app s t) u = String.rev_app t (s +:+ u).
Proof.
  induction s as [|c s IH]; intros t u; [reflexivity|].
  simpl. rewrite IH. reflexivity.
Qed.

Lemma rev_rev (s : string) : String.rev (String.rev s) = s.
Proof. unfold String.rev. rewrite rev_app_rev_app. simpl. apply append_empty_r. Qed.

Lemma scan_app (a : string) : forall st b,
  json.scan st (a +:+ b) = json.scan (json.scan st a) b.
Proof. induction a as [|c a IH]; intros st b; [reflexivity|]. rewrite append_cons. simpl. apply IH. Qed.

(** Inside a number, digits extend the literal. *)
Lemma scan_digits (s : string) : forall acc stack,
  allDigits s = true ->
  json.scan (json.State (json.InNumber acc) stack None) s
  = json.State (json.InNumber (String.rev_app s acc)) stack None.
Proof.
  induction s as [|c s IH]; intros acc stack H; [reflexivity|].
  simpl in H. apply andb_prop in H as [Hc Hs].
  simpl. unfold json.step. simpl. unfold json.isNumberChar. rewrite Hc. simpl.
  by apply IH.
Qed.

(** Where a value may start, [formatInt n] opens a number and fills it. *)
Lemma scan_formatInt (n : Z) (m : json.mode) (stack : list json.frame) :
  m = json.BeginValue \/ m = json.BeginValueOrEnd ->
  json.scan (json.State m stack None) (json.formatInt n)
  = json.State (json.InNumber (String.rev (json.formatInt n))) stack None.
Proof.
  intros Hm. destruct n as [|p|p].
  - destruct Hm as [-> | ->]; reflexivity.
  - rewrite formatInt_pos. destruct (to_uint_head p) as (c & rest & -> & Hc & H0 & Hr).
    unfold String.rev. cbn [json.scan String.rev_app].
    rewrite <- (scan_digits rest _ _ Hr). f_equal.
    digit_cases c Hc; destruct Hm as [-> | ->]; reflexivity.
  - rewrite formatInt_neg. destruct (to_uint_head p) as (c & rest & -> & Hc & H0 & Hr).
    unfold String.rev. cbn [json.scan String.rev_app].
    rewrite <- (scan_digits rest _ _ Hr). f_equal.
    digit_cases c Hc; destruct Hm as [-> | ->]; reflexivity.
Qed.

(** The literal is complete at the byte after it. *)
Lemma closeNumber_formatInt (n : Z) (stack : list json.frame) :
  json.closeNumber (String.rev (json.formatInt n)) stack
  = json.push (json.Number (json.formatInt n)) stack.
Proof. unfold json.closeNumber. by rewrite rev_rev, validNumber_formatInt. Qed.

(** An element of the array, up to and with the byte that ends it: a comma
    when more elements follow, a new line after the last one. *)
Lemma scan_element (n : Z) (m : json.mode) (elems : list json.value)
    (below : list json.frame) :
  m = json.BeginValue \/ m = json.BeginValueOrEnd ->
  json.scan (json.State m (json.FArray elems :: below) None)
    (json.newline +:+ "    " +:+ json.formatInt n +:+ ",")
  = json.State json.BeginValue
      (json.FArray (json.Number (json.formatInt n) :: elems) :: below) None
  /\ json.scan (json.State m (json.FArray elems :: below) None)
       (json.newline +:+ "    " +:+ json.formatInt n +:+ json.newline)
     = json.State json.AfterValue
         (json.FArray (json.Number (json.formatInt n) :: elems) :: below) None.
Proof.
  intros Hm.
  assert (Hws : json.scan (json.State m (json.FArray elems :: below) None)
                  (json.newline +:+ "    ")
                = json.State m (json.FArray elems :: below) None).
  { destruct Hm as [-> | ->]; reflexivity. }
  split.
  - rewrite <- append_assoc, scan_app, Hws, scan_app, (scan_formatInt _ _ _ Hm).
    simpl. unfold json.step. simpl. rewrite closeNumber_formatInt. reflexivity.
  - rewrite <- append_assoc, scan_app, Hws, scan_app, (scan_formatInt _ _ _ Hm).
    simpl. unfold json.step. simpl. rewrite closeNumber_formatInt. reflexivity.
Qed.

(** The elements of an array and the new line after the last one. *)
Lemma scan_encodeElems (below : list json.frame) (l : list Z) : forall m elems rest,
  l <> [] ->
  m = json.BeginValue \/ m = json.BeginValueOrEnd ->
  json.scan (json.State m (json.FArray elems :: below) None)
    (json.encodeElems l +:+ json.newline +:+ rest)
  = json.scan
      (json.State json.AfterValue
         (json.FArray (rev (map (fun n => json.Number (json.formatInt n)) l) ++ elems)
            :: below) None)
      rest.
Proof.
  induction l as [|n l IH]; intros m elems rest Hne Hm; [congruence|].
  destruct (scan_element n m elems below Hm) as [Hcomma Hnl].
  destruct l as [|n' l].
  - cbn [json.encodeElems].
    replace ((json.newline +:+ "    " +:+ json.formatInt n +:+ EmptyString)
             +:+ json.newline +:+ rest)
      with ((json.newline +:+ "    " +:+ json.formatInt n +:+ json.newline) +:+ rest)
      by (rewrite !append_assoc; reflexivity).
    rewrite scan_app, Hnl. reflexivity.
  - change (json.encodeElems (n :: n' :: l))
      with (json.newline +:+ "    " +:+ json.formatInt n +:+ "," +:+ json.encodeElems (n' :: l)).
    replace ((json.newline +:+ "    " +:+ json.formatInt n +:+ ","
              +:+ json.encodeElems (n' :: l)) +:+ json.newline +:+ rest)
      with ((json.newline +:+ "    " +:+ json.formatInt n +:+ ",")
            +:+ (json.encodeElems (n' :: l) +:+ json.newline +:+ rest))
      by (rewrite !append_assoc; reflexivity).
    rewrite scan_app, Hcomma. rewrite IH; [|discriminate|by left].
    cbn [map rev]. by rewrite <- !app_assoc.
Qed.

Lemma scan_close_array (elems : list json.value) (k : string)
    (members : list (string * json.value)) :
  json.scan (json.State json.AfterValue
               [json.FArray elems; json.FKey k; json.FObject members] None) "  ]"
  = json.State json.AfterValue [json.FObject ((k, json.Array (rev elems)) :: members)] None.
Proof. reflexivity. Qed.

Lemma scan_encodeInts (l : list Z) (k : string) (members : list (string * json.value))
    (rest : string) :
  json.scan (json.State json.BeginValue [json.FKey k; json.FObject members] None)
    (json.encodeInts l +:+ rest)
  = json.scan
      (json.State json.AfterValue [json.FObject ((k, intsValue l) :: members)] None)
      rest.
Proof.
  destruct l as [|n l]; [reflexivity|].
  change (json.encodeInts (n :: l))
    with ("[" +:+ json.encodeElems (n :: l) +:+ json.newline +:+ "  ]").
  replace (("[" +:+ json.encodeElems (n :: l) +:+ json.newline +:+ "  ]") +:+ rest)
    with ("[" +:+ (json.encodeElems (n :: l) +:+ json.newline +:+ ("  ]" +:+ rest)))
    by (rewrite !append_assoc; reflexivity).
  rewrite (scan_app "[").
  change (json.scan (json.State json.BeginValue [json.FKey k; json.FObject members] None) "[")
    with (json.State json.BeginValueOrEnd
            [json.FArray []; json.FKey k; json.FObject members] None).
  rewrite scan_encodeElems; [|discriminate|by right].
  rewrite app_nil_r, (scan_app "  ]"), scan_close_array, rev_involutive.
  reflexivity.
Qed.

(** Inside a string, what the encoder writes for one byte stays inside. *)
Lemma scan_escapeByte (c : ascii) (key : bool) (raw : string) (stack : list json.frame) :
  json.scan (json.State (json.InString key raw) stack None) (json.escapeByte c)
  = json.State (json.InString key (String.rev_app (json.escapeByte c) raw)) stack None.
Proof. destruct c as [[] [] [] [] [] [] [] []]; reflexivity. Qed.

Lemma scan_escape (s : string) (key : bool) (stack : list json.frame) : forall raw,
  json.scan (json.State (json.InString key raw) stack None) (json.escape s)
  = json.State (json.InString key (String.rev_app (json.escape s) raw)) stack None.
Proof.
  induction s as [|c s IH]; intros raw; [reflexivity|].
  cbn [json.escape]. rewrite scan_app, scan_escapeByte, IH. f_equal. f_equal.
  generalize (json.escapeByte c). intros e. revert raw.
  induction e as [|x e IHe]; intros raw; [reflexivity|].
  rewrite append_cons. simpl. apply IHe.
Qed.

(** A quoted string as a value: it ends in a string value, whatever it
    spells. *)
Lemma scan_quote_value (s : string) (stack : list json.frame) (rest : string) :
  json.scan (json.State json.BeginValue stack None) (json.quote s +:+ rest)
  = json.scan
      (json.push (json.Str (json.closeString (String.rev (json.escape s)))) stack)
      rest.
Proof.
  unfold json.quote. rewrite append_cons. cbn [json.scan].
  change (json.step (json.State json.BeginValue stack None) json.quoteChar)
    with (json.State (json.InString false EmptyString) stack None).
  rewrite append_assoc, scan_app, scan_escape.
  rewrite append_cons. cbn [json.scan]. reflexivity.
Qed.

Lemma decodeInts_formatInt (l : list Z) :
  Forall isInt l ->
  forall buf,
    json.decodeInts buf (map (fun n => json.Number (json.formatInt n)) l) = Some l.
Proof.
  induction 1 as [|n l Hn _ IH]; intros buf; [reflexivity|].
  cbn [map json.decodeInts json.decodeInt]. by rewrite (Atoi_formatInt n Hn), IH.
Qed.

(** The two members that the encoder writes fill the two fields. *)
Lemma decodeMembers_record (l : list Z) (s : string) :
  Forall isInt l ->
  exists d,
    json.decodeMembers [("last_selections", intsValue l); ("saved_at", json.Str s)]
      {| json.decoded := {| LastSelections := []; SavedAt := EmptyString |};
         json.spare := [] |}
    = Some d
    /\ json.decoded d = {| LastSelections := l; SavedAt := s |}.
Proof.
  intros Hint. destruct l as [|n l]; [eexists; split; reflexivity|].
  unfold intsValue. cbn [json.decodeMembers json.decodeMember map].
  rewrite decide_True by reflexivity.
  change (json.Number (json.formatInt n) :: map (fun n => json.Number (json.formatInt n)) l)
    with (map (fun n => json.Number (json.formatInt n)) (n :: l)).
  rewrite (decodeInts_formatInt _ Hint).
  rewrite decide_False by (vm_compute; discriminate).
  rewrite decide_True by reflexivity. eexists. split; reflexivity.
Qed.

(** What [json.MarshalIndent] writes, [json.Unmarshal] reads back with the
    same list of integers. *)
Lemma Unmarshal_MarshalIndent (cfg : AppConfig) (b : string) :
  Forall isInt (LastSelections cfg) ->
  json.MarshalIndent cfg = Ok b ->
  exists cfg',
    json.Unmarshal b = Ok cfg' /\ LastSelections cfg' = LastSelections cfg.
Proof.
  intros Hint [= <-]. destruct cfg as [l t]. cbn [LastSelections SavedAt] in *.
  assert (Hparse :
    json.parse
      ("{" +:+ json.newline +:+ "  " +:+ json.quote "last_selections" +:+ ": " +:+
       json.encodeInts l +:+ "," +:+ json.newline +:+ "  " +:+
       json.quote "saved_at" +:+ ": " +:+ json.quote t +:+ json.newline +:+ "}")
    = Some (json.Object
              [("last_selections", intsValue l);
               ("saved_at", json.Str (json.closeString (String.rev (json.escape t))))])).
  { unfold json.parse.
    replace ("{" +:+ json.newline +:+ "  " +:+ json.quote "last_selections" +:+ ": " +:+
             json.encodeInts l +:+ "," +:+ json.newline +:+ "  " +:+
             json.quote "saved_at" +:+ ": " +:+ json.quote t +:+ json.newline +:+ "}")
      with (("{" +:+ json.newline +:+ "  " +:+ json.quote "last_selections" +:+ ": ") +:+
            json.encodeInts l +:+
            ("," +:+ json.newline +:+ "  " +:+ json.quote "saved_at" +:+ ": ") +:+
            json.quote t +:+ json.newline +:+ "}")
      by (rewrite !append_assoc; reflexivity).
    rewrite scan_app.
    change (json.scan json.start
              ("{" +:+ json.newline +:+ "  " +:+ json.quote "last_selections" +:+ ": "))
      with (json.State json.BeginValue
              [json.FKey "last_selections"; json.FObject []] None).
    rewrite scan_encodeInts, scan_app.
    change (json.scan
              (json.State json.AfterValue
                 [json.FObject [("last_selections", intsValue l)]] None)
              ("," +:+ json.newline +:+ "  " +:+ json.quote "saved_at" +:+ ": "))
      with (json.State json.BeginValue
              [json.FKey "saved_at";
               json.FObject [("last_selections", intsValue l)]] None).
    rewrite scan_quote_value. reflexivity. }
  unfold json.Unmarshal. rewrite Hparse.
  destruct (decodeMembers_record l (json.closeString (String.rev (json.escape t))) Hint)
    as (d & -> & Hd).
  eexists. split; [reflexivity|]. by rewrite Hd.
Qed.

(** C7: a selection of [int]s that [saveLastSelections] has written without
    an error is what [loadLastSelections] returns for the same path, in the
    same order. *)
Theorem save_then_load (env : Env) (path : string) (idxs : list Z) (st st' : State) :
  Forall isInt idxs ->
  saveLastSelections env path idxs st = Returned None st' ->
  loadLastSelections st' path = Ok idxs.
Proof.
  intros Hint. unfold saveLastSelections.
  destruct (json.MarshalIndent _) as [b|] eqn:Hb; [|discriminate].
  unfold bind, os_MkdirAll, ret, os_WriteFile.
  destruct (decide (path = EmptyString)) as [|Hp]; [discriminate|].
  destruct (writeError env path); [discriminate|].
  intros [= <-]. unfold loadLastSelections, os_ReadFile. cbn [files].
  rewrite decide_False by assumption. rewrite lookup_insert_eq.
  destruct (Unmarshal_MarshalIndent
              {| LastSelections := idxs; SavedAt := time_Now env |} b Hint Hb)
    as (cfg' & -> & Hl).
  by rewrite Hl.
Qed.

Lemma save_then_load_witness :
  loadLastSelections
    (finalState (saveLastSelections exampleEnv examplePath [2; 4; 1] emptyState))
    examplePath
  = Ok [2; 4; 1].
Proof.
  apply (save_then_load exampleEnv examplePath [2; 4; 1] emptyState).
  - repeat constructor; vm_compute; discriminate.
  - reflexivity.
Defined.

(** * Further properties of the code *)

(** ** [dedupe] *)

Lemma filter_all {A} (P : A -> Prop) `{!forall x, Decision (P x)} (l : list A) :
  Forall P l -> filter P l = l.
Proof.
  induction 1 as [|x l Hx _ IH]; [reflexivity|].
  by rewrite filter_cons_True, IH.
Qed.

Lemma filter_none {A} (P : A -> Prop) `{!forall x, Decision (P x)} (l : list A) :
  Forall (fun x => ~ P x) l -> filter P l = [].
Proof.
  induction 1 as [|x l Hx _ IH]; [reflexivity|].
  by rewrite filter_cons_False.
Qed.

Lemma firstOccurrences_sublist (l : list Z) : sublist (firstOccurrences l) l.
Proof.
  induction l as [|x l IH]; simpl; [constructor|].
  apply sublist_skip. etrans; [apply sublist_filter|exact IH].
Qed.

Lemma firstOccurrences_NoDup_id (l : list Z) : NoDup l -> firstOccurrences l = l.
Proof.
  induction 1 as [|x l Hx _ IH]; simpl; [reflexivity|].
  rewrite IH. f_equal. apply filter_all.
  rewrite Forall_forall. intros y Hy ->. contradiction.
Qed.

Lemma firstOccurrences_app (l1 l2 : list Z) :
  firstOccurrences (l1 ++ l2)
  = firstOccurrences l1 ++ filter (fun x => x ∉ l1) (firstOccurrences l2).
Proof.
  induction l1 as [|x l1 IH]; simpl.
  - symmetry. apply filter_all. rewrite Forall_forall. intros y _. apply not_elem_of_nil.
  - f_equal. rewrite IH, filter_app. f_equal.
    rewrite list_filter_filter. apply list_filter_iff. intros y.
    rewrite not_elem_of_cons. naive_solver.
Qed.

(** X1: [dedupe] keeps the first occurrence of every value and drops the
    later ones: what it returns is [firstOccurrences] of its input, a list
    without repetitions that has the members of its input, in the order of
    the input, and is not longer than the input. *)
Theorem dedupe_keeps_members_in_order (l : list Z) :
  dedupe l = firstOccurrences l
  /\ NoDup (dedupe l)
  /\ (forall x, In x (dedupe l) <-> In x l)
  /\ sublist (dedupe l) l
  /\ (length (dedupe l) <= length l)%nat.
Proof.
  rewrite dedupe_firstOccurrences. split; [reflexivity|]. split; [|split; [|split]].
  - apply firstOccurrences_NoDup.
  - intros x. rewrite <- !list_elem_of_In. apply firstOccurrences_elem.
  - apply firstOccurrences_sublist.
  - apply sublist_length, firstOccurrences_sublist.
Qed.

(** X2: [dedupe] changes nothing exactly on the lists without repetitions;
    so a second [dedupe] changes nothing. *)
Theorem dedupe_fixed_points (l : list Z) :
  (dedupe l = l <-> NoDup l) /\ dedupe (dedupe l) = dedupe l.
Proof.
  rewrite !dedupe_firstOccurrences. split; [split|].
  - intros <-. apply firstOccurrences_NoDup.
  - apply firstOccurrences_NoDup_id.
  - apply firstOccurrences_NoDup_id, firstOccurrences_NoDup.
Qed.

(** X3: [dedupe] of two lists, one after the other, is [dedupe] of the first
    followed by what [dedupe] of the second has that the first has not. *)
Theorem dedupe_app (l1 l2 : list Z) :
  dedupe (l1 ++ l2) = dedupe l1 ++ filter (fun x => x ∉ l1) (dedupe l2).
Proof. rewrite !dedupe_firstOccurrences. apply firstOccurrences_app. Qed.

(** ** [parseNumbers] *)

Lemma fullSequence_NoDup (N : Z) : NoDup (fullSequence N).
Proof.
  unfold fullSequence. apply (NoDup_fmap_2 Z.of_nat), NoDup_seq.
Qed.

Lemma fullSequence_length (N : Z) : length (fullSequence N) = Z.to_nat N.
Proof. unfold fullSequence. by rewrite length_map, length_seq. Qed.

Lemma fullSequence_elem (N n : Z) : n ∈ fullSequence N <-> 1 <= n <= N.
Proof.
  unfold fullSequence. rewrite list_elem_of_In, in_map_iff. split.
  - intros (k & <- & Hk). apply in_seq in Hk. lia.
  - intros Hn. exists (Z.to_nat n). split; [lia|]. apply in_seq. lia.
Qed.

(** How the loop of [parseNumbers] succeeds: through all tokens, or at a
    token [0]. *)
Lemma parseTokens_ok_cases (N : Z) (toks : list string) : forall out l,
  parseTokens toks N out = Ok l ->
  (exists ns, Forall2 (validToken N) toks ns /\ l = dedupe (out ++ ns))
  \/ (exists pre post ns, toks = pre ++ "0" :: post
                          /\ Forall2 (validToken N) pre ns /\ l = fullSequence N).
Proof.
  induction toks as [|p toks IH]; intros out l H; simpl in H.
  - left. exists []. split; [constructor|]. rewrite app_nil_r. congruence.
  - destruct (decide (p = "0")) as [->|Hp].
    { right. exists [], toks, []. split; [reflexivity|]. split; [constructor|].
      rewrite <- allIndices_fullSequence. congruence. }
    destruct (strconv.Atoi p) as [m|] eqn:Ha; [|discriminate].
    destruct ((m <? 1) || (m >? N)) eqn:Hr; [discriminate|].
    assert (Hv : validToken N p m) by (split; [assumption|lia]).
    destruct (IH _ _ H) as [(ns & Hns & ->)|(pre & post & ns & -> & Hns & ->)].
    + left. exists (m :: ns). split; [by constructor|]. by rewrite <- app_assoc.
    + right. exists (p :: pre), post, (m :: ns). split; [reflexivity|].
      split; [by constructor|reflexivity].
Qed.

Lemma parseTokens_err_app (N : Z) (t1 t2 : list string) : forall out e,
  parseTokens t1 N out = Err e -> parseTokens (t1 ++ t2) N out = Err e.
Proof.
  induction t1 as [|p t1 IH]; intros out e H; simpl in *; [discriminate|].
  destruct (decide (p = "0")); [discriminate|].
  destruct (strconv.Atoi p) as [m|]; [|assumption].
  destruct ((m <? 1) || (m >? N)); [assumption|]. by apply IH.
Qed.

Lemma Split_nonempty (s : string) (sep : ascii) : strings.Split s sep <> [].
Proof.
  destruct s as [|c s]; simpl; [discriminate|].
  destruct (Ascii.eqb c sep); [discriminate|].
  destruct (strings.Split s sep); discriminate.
Qed.

(** A separator between two strings separates their segments. *)
Lemma Split_app (s1 s2 : string) (sep : ascii) :
  strings.Split (s1 +:+ String sep s2) sep
  = strings.Split s1 sep ++ strings.Split s2 sep.
Proof.
  induction s1 as [|c s1 IH].
  - change (EmptyString +:+ String sep s2) with (String sep s2). simpl.
    by rewrite Ascii.eqb_refl.
  - change (String c s1 +:+ String sep s2) with (String c (s1 +:+ String sep s2)).
    simpl. rewrite IH. destruct (Ascii.eqb c sep); [reflexivity|].
    pose proof (Split_nonempty s1 sep).
    destruct (strings.Split s1 sep); [congruence|reflexivity].
Qed.

Lemma tokens_app (s1 s2 : string) :
  tokens (s1 +:+ "," +:+ s2) = tokens s1 ++ tokens s2.
Proof.
  unfold tokens, segments.
  change ("," +:+ s2) with (String "," s2).
  by rewrite Split_app, map_app, filter_app.
Qed.

(** X4: an input without tokens (empty, or only commas and white space)
    parses to the empty list, not to an error. *)
Theorem parseNumbers_no_tokens (s : string) (N : Z) :
  tokens s = [] -> parseNumbers s N = Ok [].
Proof. intros H. by rewrite parseNumbers_tokens, H. Qed.

Lemma parseNumbers_no_tokens_witness : parseNumbers " , ,, " 4 = Ok [].
Proof. apply parseNumbers_no_tokens. reflexivity. Defined.

Lemma parseNumbers_NoDup (s : string) (N : Z) (l : list Z) :
  parseNumbers s N = Ok l -> NoDup l.
Proof.
  intros H. rewrite parseNumbers_tokens in H.
  destruct (parseTokens_ok_cases _ _ _ _ H) as [(ns & _ & ->)|(? & ? & ? & _ & _ & ->)].
  - rewrite dedupe_firstOccurrences. apply firstOccurrences_NoDup.
  - apply fullSequence_NoDup.
Qed.

(** X5: every list that [parseNumbers] returns has no repetition, holds
    integers from 1 to [max] only, and so has at most [max] entries. *)
Theorem parseNumbers_result_invariant (s : string) (N : Z) (l : list Z) :
  parseNumbers s N = Ok l ->
  NoDup l /\ Forall (fun n => 1 <= n <= N) l /\ (length l <= Z.to_nat N)%nat.
Proof.
  intros H. pose proof (parseNumbers_in_range _ _ _ H) as Hr.
  pose proof (parseNumbers_NoDup _ _ _ H) as Hnd.
  split; [assumption|]. split; [assumption|].
  rewrite <- fullSequence_length. apply submseteq_length, NoDup_submseteq; [assumption|].
  intros n Hn. apply fullSequence_elem. rewrite Forall_forall in Hr. by apply Hr.
Qed.

Lemma parseNumbers_result_invariant_witness :
  NoDup [3; 1] /\ Forall (fun n => 1 <= n <= 4) [3; 1] /\ (length [3; 1] <= Z.to_nat 4)%nat.
Proof. apply (parseNumbers_result_invariant "3, 1,3" 4). reflexivity. Defined.

(** X6: [parseNumbers] sees its input through the tokens only: two inputs
    with the same tokens (they differ in white space around the tokens and
    in empty segments) have the same result, be it a list or an error. *)
Theorem parseNumbers_same_tokens (s1 s2 : string) (N : Z) :
  tokens s1 = tokens s2 -> parseNumbers s1 N = parseNumbers s2 N.
Proof. intros H. by rewrite !parseNumbers_tokens, H. Qed.

Lemma parseNumbers_same_tokens_witness :
  parseNumbers " 2 ,,1, x" 4 = parseNumbers "2,1,x" 4.
Proof. apply parseNumbers_same_tokens. reflexivity. Defined.

(** X7: two inputs joined by a comma.  An error of the first input stays
    the error of the joined input.  When both inputs parse and the second
    has no token [0], the joined input parses to the first list followed
    by what is new in the second. *)
Theorem parseNumbers_joined (s1 s2 : string) (N : Z) :
  (forall e, parseNumbers s1 N = Err e -> parseNumbers (s1 +:+ "," +:+ s2) N = Err e)
  /\ (forall l1 l2,
        parseNumbers s1 N = Ok l1 -> parseNumbers s2 N = Ok l2 ->
        ~ In "0" (tokens s2) ->
        parseNumbers (s1 +:+ "," +:+ s2) N = Ok (dedupe (l1 ++ l2))).
Proof.
  rewrite !parseNumbers_tokens, tokens_app. split.
  - intros e. apply parseTokens_err_app.
  - intros l1 l2 H1 H2 Hz.
    destruct (parseTokens_no_zero _ _ _ _ Hz H2) as (ns2 & Hns2 & ->). simpl.
    assert (Hin2 : Forall (fun n => 1 <= n <= N) ns2).
    { clear -Hns2. induction Hns2 as [|p n ? ? [_ Hr]]; constructor; assumption. }
    rewrite !dedupe_firstOccurrences.
    destruct (parseTokens_ok_cases _ _ _ _ H1) as [(ns1 & Hns1 & ->)|(pre & post & ns & -> & Hpre & ->)].
    + rewrite (parseTokens_valid_prefix _ _ _ _ _ Hns1). simpl.
      rewrite <- (app_nil_r (tokens s2)), (parseTokens_valid_prefix _ _ _ _ _ Hns2).
      simpl. rewrite !dedupe_firstOccurrences. f_equal.
      rewrite !firstOccurrences_app.
      rewrite (firstOccurrences_NoDup_id (firstOccurrences ns1)) by apply firstOccurrences_NoDup.
      f_equal. rewrite (firstOccurrences_NoDup_id (firstOccurrences ns2)) by apply firstOccurrences_NoDup.
      apply list_filter_iff. intros x. by rewrite firstOccurrences_elem.
    + rewrite <- app_assoc. simpl. rewrite (parseTokens_zero _ _ _ _ _ Hpre). f_equal.
      rewrite firstOccurrences_app.
      rewrite (firstOccurrences_NoDup_id (fullSequence N)) by apply fullSequence_NoDup.
      rewrite filter_none; [by rewrite app_nil_r|].
      rewrite Forall_forall. intros x Hx Hnot. apply Hnot.
      rewrite !firstOccurrences_elem in Hx.
      apply fullSequence_elem. rewrite Forall_forall in Hin2. by apply Hin2.
Qed.

Lemma parseNumbers_joined_witness :
  parseNumbers ("2,3" +:+ "," +:+ "3,1") 4 = Ok (dedupe ([2; 3] ++ [3; 1])).
Proof.
  apply (proj2 (parseNumbers_joined "2,3" "3,1" 4)); [reflexivity|reflexivity|].
  vm_compute. intuition discriminate.
Defined.

(** ** The picker: defaults and the translation of picks *)

Lemma runAll_picked (picks : list string) :
  existsb (fun p => bool_decide (p = runAllLabel)) picks = true <-> In runAllLabel picks.
Proof.
  rewrite existsb_exists. split.
  - intros (p & Hp & Heq). apply bool_decide_eq_true in Heq. by subst.
  - intros H. exists runAllLabel. split; [assumption|]. by apply bool_decide_eq_true.
Qed.

(** Without the synthetic option among the picks, the translation looks up
    every pick among the labels and drops the picks that are no label. *)
Lemma translatePicks_lookup (picks : list string) :
  ~ In runAllLabel picks ->
  translatePicks picks = flat_map (fun p => match indexOfLabel p tasks 0 with Some i => [i] | None => [] end) picks.
Proof.
  intros Hno. unfold translatePicks.
  destruct (existsb _ picks) eqn:He; [apply runAll_picked in He; contradiction|].
  assert (forall acc,
            fold_left (fun sel p => match indexOfLabel p tasks 0 with
                                    | Some i => sel ++ [i]
                                    | None => sel
                                    end) picks acc
            = acc ++ flat_map (fun p => match indexOfLabel p tasks 0 with Some i => [i] | None => [] end) picks) as H.
  { clear. induction picks as [|p picks IH]; intros acc; cbn [fold_left flat_map].
    - by rewrite app_nil_r.
    - rewrite IH. destruct (indexOfLabel p tasks 0); [|reflexivity].
      by rewrite <- app_assoc. }
  apply (H []).
Qed.

(** The label of the task at an index is found at that index: the labels
    of the catalog are distinct. *)
Lemma indexOfLabel_taskAt (i : Z) (t : Task) :
  taskAt i = Some t -> indexOfLabel (Label t) tasks 0 = Some i /\ inRange i.
Proof.
  unfold taskAt, inRange, lenTasks. destruct (i <? 1) eqn:Hi; [discriminate|].
  assert (Hi' : i = Z.of_nat (Z.to_nat (i - 1)) + 1) by lia. revert Hi'.
  destruct (Z.to_nat (i - 1)) as [|[|[|[|n]]]]; simpl;
    intros -> [= <-]; split; try reflexivity; lia.
Qed.

Lemma taskAt_inRange (i : Z) : inRange i -> exists t, taskAt i = Some t.
Proof.
  unfold inRange, lenTasks, taskAt. simpl. intros Hi.
  replace (i <? 1) with false by lia.
  apply lookup_lt_is_Some_2. simpl. lia.
Qed.

(** X8: when the synthetic option is among the picks, the selection is the
    whole catalog in catalog order, whatever else is picked. *)
Theorem translatePicks_run_all (picks : list string) :
  In runAllLabel picks -> translatePicks picks = fullSequence lenTasks.
Proof.
  intros H. unfold translatePicks. apply runAll_picked in H. rewrite H. reflexivity.
Qed.

Lemma translatePicks_run_all_witness :
  translatePicks ["php artisan route:clear"; "[Run ALL]"; "no such label"]
  = fullSequence lenTasks.
Proof. apply translatePicks_run_all. simpl. auto. Defined.

Lemma label_preChecked (last : list Z) (i : Z) (t : Task) :
  taskAt i = Some t -> (Label t ∈ preChecked last <-> i ∈ last).
Proof.
  intros Ht. destruct (indexOfLabel_taskAt i t Ht) as [Hidx Hi].
  unfold preChecked. rewrite list_elem_of_In, in_flat_map. split.
  - intros (j & Hj & Hin). apply list_elem_of_In, list_elem_of_filter in Hj as [_ Hj].
    destruct (taskAt j) as [t'|] eqn:Ht'; [|destruct Hin].
    destruct Hin as [Heq|[]].
    apply indexOfLabel_taskAt in Ht' as [Hidx' _].
    rewrite Heq in Hidx'. congruence.
  - intros Hin. exists i. split.
    + apply list_elem_of_In, list_elem_of_filter. by split.
    + rewrite Ht. by left.
Qed.

(** The checked labels, in the order of the options, translate into the
    indices of the catalog that the last selection holds, in the order of
    the catalog. *)
Lemma translatePicks_checked (last : list Z) :
  translatePicks (filter (fun o => o ∈ preChecked last) pickerOptions)
  = filter (fun i => i ∈ last) (fullSequence lenTasks).
Proof.
  change pickerOptions with
    [runAllLabel; "php artisan optimize:clear"; "php artisan config:clear";
     "php artisan route:clear"; "php artisan cache:clear"]%string.
  change (fullSequence lenTasks) with [1; 2; 3; 4].
  pose proof (runAllLabel_not_preChecked last) as Hno.
  rewrite <- list_elem_of_In in Hno.
  pose proof (fun t => label_preChecked last 1 t) as H1.
  pose proof (fun t => label_preChecked last 2 t) as H2.
  pose proof (fun t => label_preChecked last 3 t) as H3.
  pose proof (fun t => label_preChecked last 4 t) as H4.
  specialize (H1 _ eq_refl). specialize (H2 _ eq_refl).
  specialize (H3 _ eq_refl). specialize (H4 _ eq_refl).
  cbn [Label] in H1, H2, H3, H4.
  rewrite !filter_cons, !filter_nil.
  rewrite (decide_False _ _ Hno).
  destruct (decide (1 ∈ last)), (decide (2 ∈ last)), (decide (3 ∈ last)), (decide (4 ∈ last));
    repeat match goal with
           | |- context [decide (?s ∈ preChecked last)] =>
               first [ rewrite (decide_True (P := s ∈ preChecked last)) by tauto
                     | rewrite (decide_False (P := s ∈ preChecked last)) by tauto ]
           end;
    reflexivity.
Qed.

(** X9: the picker with a last selection on file, when the operator accepts
    the prompt as it comes up, so that [survey.AskOne] answers with the
    options checked in advance, in the order of the options and once each.
    The selection is then the whole catalog when the last selection has as
    many entries as the catalog, and otherwise the indices of the catalog
    that the last selection holds, in the order of the catalog and once
    each: the order and the repetitions of the last selection are lost. *)
Theorem accepted_defaults_selection (env : Env) (fl : Flags) (c : bool)
    (cfgPath : string) (st : State) (last : list Z) :
  numbers fl = EmptyString ->
  useLast fl = false ->
  loadLastSelections st cfgPath = Ok last ->
  last <> [] ->
  survey_AskOne env (pickerPrompt st cfgPath)
  = Ok (checkedOptions (pickerPrompt st cfgPath)) ->
  determineSelections env fl c cfgPath st
  = Returned (if decide (length last = length tasks) then fullSequence lenTasks
              else filter (fun i => i ∈ last) (fullSequence lenTasks)) st.
Proof.
  intros Hn Hu Hload Hne Hask. unfold determineSelections.
  rewrite Hn, Hu. rewrite bool_decide_eq_true_2 by reflexivity. cbn [negb].
  rewrite Hask. unfold ret. f_equal.
  unfold checkedOptions, pickerPrompt. rewrite Hload.
  rewrite decide_True by (destruct last; [congruence|simpl; lia]).
  cbn [Default Options]. unfold defaultPicks.
  destruct (decide (length last = length tasks)) as [Hlen|Hlen].
  - unfold translatePicks.
    replace (existsb _ _) with true; [reflexivity|].
    symmetry. apply runAll_picked. apply list_elem_of_In, list_elem_of_filter.
    split; [apply list_elem_of_In; simpl; auto|].
    apply list_elem_of_In. vm_compute. auto.
  - rewrite (defaultPicks_loop last []). apply translatePicks_checked.
Qed.

Lemma accepted_defaults_selection_witness :
  determineSelections (withAskOne exampleEnv (fun p => Ok (checkedOptions p)))
    flagsPicker true examplePath swappedState
  = Returned [1; 3] swappedState.
Proof.
  apply (accepted_defaults_selection
           (withAskOne exampleEnv (fun p => Ok (checkedOptions p)))
           flagsPicker true examplePath swappedState [3; 1]);
    [reflexivity|reflexivity|reflexivity|discriminate|reflexivity].
Defined.

(** X10: every option checked in advance is an option of the prompt. *)
Theorem defaultPicks_are_options (last : list Z) (p : string) :
  In p (defaultPicks last) -> In p pickerOptions.
Proof.
  unfold defaultPicks. destruct (decide (length last = length tasks)) as [|Hlen].
  - intros [<-|[]]. by left.
  - rewrite (defaultPicks_loop last []). cbn [app]. unfold preChecked.
    rewrite in_flat_map. intros (i & _ & Hi).
    destruct (taskAt i) as [t|] eqn:Ht; [|destruct Hi]. destruct Hi as [<-|[]].
    unfold taskAt in Ht. destruct (i <? 1); [discriminate|].
    destruct (Z.to_nat (i - 1)) as [|[|[|[|n]]]]; simpl in Ht;
      try discriminate; injection Ht as <-; vm_compute; auto 10.
Qed.

Lemma defaultPicks_are_options_witness : In "php artisan config:clear" pickerOptions.
Proof. apply (defaultPicks_are_options [9; 2; 0]). simpl. auto. Defined.

Lemma indexOfLabel_option (p : string) :
  In p pickerOptions -> p <> runAllLabel -> is_Some (indexOfLabel p tasks 0).
Proof.
  intros Hp Hne. vm_compute in Hp.
  destruct Hp as [<- | [<- | [<- | [<- | [<- | [] ] ] ] ] ];
    [exfalso; apply Hne; reflexivity|..]; by eexists.
Qed.

(** X11: picks that are options of the prompt, at least one of them, never
    translate into the empty selection; and without the synthetic option
    every pick gives one index. *)
Theorem translatePicks_of_options (picks : list string) :
  picks <> [] ->
  Forall (fun p => In p pickerOptions) picks ->
  translatePicks picks <> []
  /\ (~ In runAllLabel picks -> length (translatePicks picks) = length picks).
Proof.
  intros Hne Hopt.
  assert (Hlen : ~ In runAllLabel picks -> length (translatePicks picks) = length picks).
  { clear Hne. intros Hno. rewrite (translatePicks_lookup _ Hno).
    induction Hopt as [|p picks Hp _ IH]; [reflexivity|]. cbn [flat_map].
    destruct (indexOfLabel_option p Hp) as [i ->].
    { intros ->. apply Hno. by left. }
    simpl. f_equal. apply IH. intros H. apply Hno. by right. }
  split; [|exact Hlen].
  destruct (in_dec string_dec runAllLabel picks) as [Hin|Hno].
  - unfold translatePicks. apply runAll_picked in Hin. rewrite Hin. discriminate.
  - intros Heq. apply Hlen in Hno. rewrite Heq in Hno.
    destruct picks; [congruence|discriminate].
Qed.

Lemma translatePicks_of_options_witness :
  translatePicks ["php artisan cache:clear"; "php artisan optimize:clear"] <> []
  /\ (~ In runAllLabel ["php artisan cache:clear"; "php artisan optimize:clear"] ->
      length (translatePicks ["php artisan cache:clear"; "php artisan optimize:clear"])
      = 2%nat).
Proof.
  apply translatePicks_of_options; [discriminate|].
  constructor; [|constructor; [|constructor] ]; vm_compute; tauto.
Defined.

(** ** The whole run *)

(** What saving does to the state: nothing but the file at [path]. *)
Lemma saveLastSelections_state (env : Env) (path : string) (idxs : list Z) (st : State) :
  exists r,
    saveLastSelections env path idxs st
    = Returned r (finalState (saveLastSelections env path idxs st))
    /\ console (finalState (saveLastSelections env path idxs st)) = console st
    /\ launched (finalState (saveLastSelections env path idxs st)) = launched st
    /\ forall p, p <> path ->
         files (finalState (saveLastSelections env path idxs st)) !! p = files st !! p.
Proof.
  unfold saveLastSelections, json.MarshalIndent, bind, os_MkdirAll, ret, os_WriteFile.
  destruct (decide (path = EmptyString)); [eauto 10|].
  destruct (writeError env path); [eauto 10|].
  eexists. simpl. repeat split; try reflexivity.
  intros p Hp. by rewrite lookup_insert_ne.
Qed.

Lemma stateAfterSave_spec (env : Env) (fl : Flags) (sel : list Z) (st1 : State) :
  console (stateAfterSave env fl sel st1) = console st1
  /\ launched (stateAfterSave env fl sel st1) = launched st1
  /\ (noSave fl = true -> files (stateAfterSave env fl sel st1) = files st1)
  /\ forall p, p <> configPath env ->
       files (stateAfterSave env fl sel st1) !! p = files st1 !! p.
Proof.
  unfold stateAfterSave. destruct (noSave fl); [by auto|].
  destruct (saveLastSelections_state env (configPath env) sel st1) as (r & _ & Hc & Hl & Hf).
  repeat split; try assumption. discriminate.
Qed.

(** The state in which a run that goes through the selection ends. *)
Lemma main_run_state (env : Env) (fl : Flags) (st st1 st2 : State) (absPath : string)
    (sel : list Z) :
  resolveProjectPath env fl (negb (noColor fl)) st = Returned absPath st1 ->
  determineSelections env fl (negb (noColor fl)) (configPath env) st1 = Returned sel st2 ->
  sel <> [] ->
  main env fl st
  = Returned tt
      {| files := files (stateAfterSave env fl sel st1);
         console :=
           console st1
           ++ [{| lvl := Success; coloured := negb (noColor fl); text := MsgExecuting |}]
           ++ runLines env (negb (noColor fl)) absPath (launched st1) sel
           ++ [{| lvl := Success; coloured := negb (noColor fl); text := MsgAllExecuted |}];
         launched := launched st1 ++ launchesOf absPath sel |}.
Proof.
  intros Hres Hdet Hsel.
  pose proof (determineSelections_returned _ _ _ _ _ _ _ Hdet) as ->.
  destruct (stateAfterSave_spec env fl sel st1) as (Hc & Hl & _).
  unfold main, newColorizer.
  unfold bind at 1. rewrite Hres.
  unfold bind at 1. rewrite Hdet.
  unfold bind at 1.
  destruct (decide (length sel = 0%nat)) as [H0|_].
  { destruct sel; [congruence|discriminate]. }
  unfold ret at 1. unfold bind at 1.
  assert ((if negb (noSave fl)
           then saveLastSelections env (configPath env) sel;;; ret ()
           else ret ()) st1 = Returned tt (stateAfterSave env fl sel st1)) as ->.
  { unfold stateAfterSave. destruct (noSave fl); simpl; [reflexivity|].
    destruct (saveLastSelections_state env (configPath env) sel st1) as (r & Hs & _).
    unfold bind, ret. by rewrite Hs. }
  unfold bind, ok, println. rewrite runSelected_spec. simpl.
  rewrite Hc, Hl, <- !app_assoc. reflexivity.
Qed.

Lemma main_ends (env : Env) (fl : Flags) (st : State) : mainEnd env fl st.
Proof.
  destruct (resolveProjectPath env fl (negb (noColor fl)) st) as [absPath st1|code s] eqn:Hr.
  - destruct (determineSelections_cases env fl (negb (noColor fl)) (configPath env) st1)
      as [[sel Hd]|[e Hd]].
    + destruct sel as [|i sel].
      * eapply EndEmpty; eauto. by apply (main_exit_empty env fl st st1 st1 absPath).
      * eapply EndRun; eauto; discriminate.
    + eapply EndNoSelection; eauto. by apply (main_exit_determine env fl st st1 _ absPath).
  - pose proof Hr as Hr'. rewrite resolveProjectPath_spec in Hr'.
    destruct (filepath_Abs env (projectPath fl)) as [|e] eqn:Ha; [discriminate|].
    injection Hr' as <- <-. eapply EndUnresolved; eauto.
    by apply main_exit_resolve.
Qed.

Lemma last_printed (st : State) (l : level) (c : bool) (msg : message) :
  last (console (printed st l c msg)) = Some {| lvl := l; coloured := c; text := msg |}.
Proof. unfold printed. simpl. apply last_snoc. Qed.

(** X12: once [flag.Parse] has returned, whatever the flags it returned, a
    run ends in one of two ways.  With status 0, and then its last line is
    "All selected commands executed."; or with status 1, and then its last
    line is an error, no child process was started and no file was written.
    (A command line that [flag.Parse] refuses ends there, in package [flag],
    with status 2, and [-h] with status 0: that is before the part of
    [main] that is modelled here.) *)
Theorem main_exit_status (env : Env) (fl : Flags) (st : State) :
  (exitStatus (main env fl st) = 0
   /\ last (console (finalState (main env fl st)))
      = Some {| lvl := Success; coloured := negb (noColor fl); text := MsgAllExecuted |})
  \/ (exitStatus (main env fl st) = 1
      /\ (exists e, last (console (finalState (main env fl st)))
                    = Some {| lvl := Failure; coloured := negb (noColor fl);
                              text := MsgError e |})
      /\ launched (finalState (main env fl st)) = launched st
      /\ files (finalState (main env fl st)) = files st).
Proof.
  destruct (main_ends env fl st) as [e Ha ->|absPath st1 e Hr Hd ->|absPath st1 Hr Hd ->
                                    |absPath st1 sel Hr Hd Hsel].
  - right. cbn [finalState exitStatus]. rewrite last_printed.
    split; [reflexivity|]. split; [eauto|]. split; reflexivity.
  - right. destruct (resolveProjectPath_returned _ _ _ _ _ _ Hr) as (_ & Hf & Hl & _).
    cbn [finalState exitStatus]. rewrite last_printed.
    split; [reflexivity|]. split; [eauto|]. split; assumption.
  - right. destruct (resolveProjectPath_returned _ _ _ _ _ _ Hr) as (_ & Hf & Hl & _).
    cbn [finalState exitStatus]. rewrite last_printed.
    split; [reflexivity|]. split; [eauto|]. split; assumption.
  - left. rewrite (main_run_state env fl st st1 st1 absPath sel Hr Hd Hsel).
    cbn [finalState exitStatus console].
    split; [reflexivity|]. rewrite !app_assoc. apply last_snoc.
Qed.

Lemma taskAt_in_tasks (i : Z) (t : Task) : taskAt i = Some t -> In t tasks.
Proof.
  unfold taskAt. destruct (i <? 1); [discriminate|].
  intros H. apply list_elem_of_In. by eapply list_elem_of_lookup_2.
Qed.

(** X13: the child processes that a run starts are commands of the catalog,
    started in the resolved project path. *)
Theorem main_runs_catalog_commands_only (env : Env) (fl : Flags) (st : State) :
  exists started,
    launched (finalState (main env fl st)) = launched st ++ started
    /\ Forall (fun l => filepath_Abs env (projectPath fl) = Ok (dir l)
                        /\ exists t, In t tasks /\ argv l = Cmd t) started.
Proof.
  destruct (main_ends env fl st) as [e Ha ->|absPath st1 e Hr Hd ->|absPath st1 Hr Hd ->
                                    |absPath st1 sel Hr Hd Hsel];
    try (destruct (resolveProjectPath_returned _ _ _ _ _ _ Hr) as (Ha & _ & Hl & _));
    try (exists []; rewrite app_nil_r; split; [by cbn [finalState]|constructor]).
  exists (launchesOf absPath sel).
  rewrite (main_run_state env fl st st1 st1 absPath sel Hr Hd Hsel). simpl.
  split; [by rewrite Hl|]. rewrite Forall_forall. intros l Hin.
  apply list_elem_of_In, launchesOf_in in Hin as (i & t & _ & _ & Ht & ->). simpl.
  split; [assumption|]. exists t. split; [by eapply taskAt_in_tasks|reflexivity].
Qed.

(** X14: the code of [main] itself writes no file but the preference
    file: of the files as the program reads and writes them, only the one
    at [configPath] can differ after a run, and with [--no-save] none.
    (What the child processes do to files, and the directories that
    [os.MkdirAll] makes for the preference file, are not part of [files].) *)
Theorem main_writes_preference_file_only (env : Env) (fl : Flags) (st : State) :
  (forall p, p <> configPath env ->
     files (finalState (main env fl st)) !! p = files st !! p)
  /\ (noSave fl = true -> files (finalState (main env fl st)) = files st).
Proof.
  destruct (main_ends env fl st) as [e Ha ->|absPath st1 e Hr Hd ->|absPath st1 Hr Hd ->
                                    |absPath st1 sel Hr Hd Hsel];
    try (destruct (resolveProjectPath_returned _ _ _ _ _ _ Hr) as (_ & Hf & _ & _));
    try (cbn [finalState printed files]; by rewrite ?Hf).
  destruct (stateAfterSave_spec env fl sel st1) as (_ & _ & Hno & Hother).
  rewrite (main_run_state env fl st st1 st1 absPath sel Hr Hd Hsel). simpl. split.
  - intros p Hp. by rewrite Hother, Hf.
  - intros Hn. by rewrite Hno, Hf.
Qed.

(** X15: an error of the selection source ends the run with that error as
    the last line and with status 1: the error of [parseNumbers] for
    [--numbers], and the error of the prompt for the picker. *)
Theorem selection_errors_are_fatal (env : Env) (fl : Flags) (st st1 : State)
    (absPath : string) (e : error) :
  resolveProjectPath env fl (negb (noColor fl)) st = Returned absPath st1 ->
  (numbers fl <> EmptyString /\ parseNumbers (numbers fl) lenTasks = Err e)
  \/ (numbers fl = EmptyString /\ useLast fl = false
      /\ survey_AskOne env (pickerPrompt st (configPath env)) = Err e) ->
  main env fl st = Exited 1 (printed st1 Failure (negb (noColor fl)) (MsgError e)).
Proof.
  intros Hr Hsrc. apply (main_exit_determine env fl st st1 _ absPath 1 Hr).
  destruct (resolveProjectPath_returned _ _ _ _ _ _ Hr) as (_ & Hf & _ & _).
  unfold determineSelections.
  destruct Hsrc as [[Hn Hp]|(Hn & Hu & Ha)].
  - rewrite bool_decide_eq_false_2 by assumption. simpl. by rewrite Hp.
  - rewrite Hn, Hu. simpl.
    assert (pickerPrompt st1 (configPath env) = pickerPrompt st (configPath env)) as ->.
    { unfold pickerPrompt, loadLastSelections, os_ReadFile. by rewrite Hf. }
    by rewrite Ha.
Qed.

Lemma selection_errors_are_fatal_witness :
  main exampleEnv (flagsNumbers "5") emptyState
  = Exited 1 (printed (printed emptyState Info true (MsgProjectPath "/srv/app"))
                Failure true (MsgError (ErrOutOfRange 5))).
Proof.
  apply (selection_errors_are_fatal exampleEnv (flagsNumbers "5") emptyState
           (printed emptyState Info true (MsgProjectPath "/srv/app")) "/srv/app").
  - reflexivity.
  - left. split; [discriminate|reflexivity].
Defined.

(** X16: [--numbers] with a value that has no token (only commas and white
    space) ends the run with "no commands selected" and status 1. *)
Theorem numbers_without_tokens_is_fatal (env : Env) (fl : Flags) (st st1 : State)
    (absPath : string) :
  resolveProjectPath env fl (negb (noColor fl)) st = Returned absPath st1 ->
  numbers fl <> EmptyString ->
  tokens (numbers fl) = [] ->
  main env fl st
  = Exited 1 (printed st1 Failure (negb (noColor fl)) (MsgError ErrNoCommands)).
Proof.
  intros Hr Hn Ht. apply (main_exit_empty env fl st st1 st1 absPath Hr).
  unfold determineSelections. rewrite bool_decide_eq_false_2 by assumption. simpl.
  by rewrite parseNumbers_tokens, Ht.
Qed.

Lemma numbers_without_tokens_is_fatal_witness :
  main exampleEnv (flagsNumbers " , ") emptyState
  = Exited 1 (printed (printed emptyState Info true (MsgProjectPath "/srv/app"))
                Failure true (MsgError ErrNoCommands)).
Proof.
  apply (numbers_without_tokens_is_fatal exampleEnv (flagsNumbers " , ") emptyState
           (printed emptyState Info true (MsgProjectPath "/srv/app")) "/srv/app");
    [reflexivity|discriminate|reflexivity].
Defined.

(** ** The loop over the selection *)

Lemma launchesOf_filter (absPath : string) (sel : list Z) :
  length (launchesOf absPath sel) = length (filter inRange sel).
Proof.
  induction sel as [|i sel IH]; [reflexivity|].
  unfold launchesOf in *. cbn [flat_map]. rewrite length_app, IH, filter_cons.
  destruct (inRangeb i) eqn:Hi.
  - rewrite decide_True by (by apply inRangeb_spec).
    apply inRangeb_spec in Hi. destruct (taskAt_inRange i Hi) as [t ->]. reflexivity.
  - rewrite decide_False by (rewrite <- inRangeb_spec; congruence).
    by destruct (taskAt i).
Qed.

(** X17: the loop over a selection accounts for every index: it warns
    about the indices outside the catalog, in their order, starts one child
    process for each of the others, and leaves the files alone. *)
Theorem runSelected_accounts_for_every_index (env : Env) (c : bool)
    (absPath : string) (sel : list Z) (st : State) :
  exists st',
    runSelected env c absPath sel st = Returned tt st'
    /\ skippedIndices (console st')
       = skippedIndices (console st) ++ filter (fun i => ~ inRange i) sel
    /\ (length (launched st')
        = length (launched st) + length (filter inRange sel))%nat
    /\ (length (filter (fun i => ~ inRange i) sel) + length (filter inRange sel)
        = length sel)%nat
    /\ files st' = files st.
Proof.
  rewrite runSelected_spec. eexists. split; [reflexivity|]. simpl.
  rewrite skippedIndices_app, skippedIndices_runLines, length_app, launchesOf_filter.
  repeat split; try reflexivity.
  clear. induction sel as [|i sel IH]; [reflexivity|].
  rewrite !filter_cons. destruct (decide (inRange i)).
  - rewrite decide_False by tauto. simpl. lia.
  - rewrite decide_True by tauto. simpl. lia.
Qed.

(** ** One run after the other *)

Lemma Atoi_isInt (s : string) (n : Z) : strconv.Atoi s = Some n -> isInt n.
Proof.
  unfold strconv.Atoi, isInt.
  match goal with |- context [let '(_, _) := ?X in _] => destruct X as [neg body] end.
  destruct body as [|c body]; [discriminate|].
  destruct (strconv.digits _ 0) as [m|]; [|discriminate].
  destruct (_ && _) eqn:Hr; [|discriminate].
  intros [= <-]. lia.
Qed.

Lemma decodeInts_isInt (elems : list json.value) : forall buf ns,
  Forall isInt buf ->
  json.decodeInts buf elems = Some ns -> Forall isInt ns.
Proof.
  induction elems as [|v elems IH]; intros buf ns Hbuf H; simpl in H.
  - injection H as <-. constructor.
  - destruct (json.decodeInt (hd 0 buf) v) as [m|] eqn:Hv; [|discriminate].
    destruct (json.decodeInts (tl buf) elems) as [ms|] eqn:Hd; [|discriminate].
    injection H as <-. constructor.
    + destruct v; try discriminate.
      * injection Hv as <-. destruct Hbuf as [|b buf Hb _]; simpl; [|exact Hb].
        unfold isInt, strconv.intSize. lia.
      * by apply Atoi_isInt in Hv.
    + apply (IH (tl buf)); [|exact Hd]. destruct Hbuf; simpl; [constructor|assumption].
Qed.

Lemma decodeMembers_isInt (members : list (string * json.value)) : forall d d',
  Forall isInt (LastSelections (json.decoded d) ++ json.spare d) ->
  json.decodeMembers members d = Some d' ->
  Forall isInt (LastSelections (json.decoded d')).
Proof.
  induction members as [|[k v] members IH]; intros d d' Hc H;
    cbn [json.decodeMembers] in H.
  - injection H as <-. by apply Forall_app in Hc as [? _].
  - destruct (json.decodeMember d (k, v)) as [d1|] eqn:Hm; [|discriminate].
    apply (IH d1 d'); [|assumption].
    unfold json.decodeMember in Hm.
    destruct (decide (json.foldName k = json.foldName "last_selections")).
    { destruct v as [| | | |elems|]; try discriminate.
      - injection Hm as <-. constructor.
      - destruct elems as [|v0 elems]; [injection Hm as <-; constructor|].
        destruct (json.decodeInts _ (v0 :: elems)) as [ns|] eqn:Hd; [|discriminate].
        injection Hm as <-. cbn [json.decoded json.spare LastSelections].
        apply Forall_app. split.
        + by apply decodeInts_isInt in Hd.
        + by apply Forall_drop. }
    destruct (decide (json.foldName k = json.foldName "saved_at")).
    { destruct v; try discriminate; by injection Hm as <-. }
    by injection Hm as <-.
Qed.

(** What [loadLastSelections] returns are [int]s. *)
Lemma loadLastSelections_isInt (st : State) (path : string) (l : list Z) :
  loadLastSelections st path = Ok l -> Forall isInt l.
Proof.
  unfold loadLastSelections. destruct (os_ReadFile st path) as [b|]; [|discriminate].
  unfold json.Unmarshal. destruct (json.parse b) as [v|]; [|discriminate].
  destruct v; try discriminate.
  - intros [= <-]. constructor.
  - destruct (json.decodeMembers members _) as [d|] eqn:Hd; [|discriminate].
    intros [= <-]. eapply decodeMembers_isInt; [|exact Hd]. constructor.
Qed.

Lemma inRange_isInt (l : list Z) : Forall inRange l -> Forall isInt l.
Proof.
  intros H. eapply Forall_impl; [exact H|].
  intros i. unfold inRange, isInt, strconv.intSize.
  change lenTasks with 4. lia.
Qed.

Lemma determineSelections_isInt (env : Env) (fl : Flags) (c : bool) (cfgPath : string)
    (st st' : State) (sel : list Z) :
  determineSelections env fl c cfgPath st = Returned sel st' -> Forall isInt sel.
Proof.
  intros H. destruct (decide (numbers fl = EmptyString)) as [Hn|Hn].
  - destruct (useLast fl) eqn:Hu.
    + apply (loadLastSelections_isInt st cfgPath).
      revert H. unfold determineSelections. rewrite Hn, Hu. simpl.
      destruct (loadLastSelections st cfgPath) as [last|]; [|discriminate].
      destruct (decide (length last = 0%nat)); [discriminate|]. by intros [= <- _].
    + apply inRange_isInt.
      revert H. unfold determineSelections. rewrite Hn, Hu. simpl.
      destruct (survey_AskOne env _); [|discriminate].
      intros [= <- _]. apply translatePicks_in_range.
  - apply inRange_isInt.
    revert H. unfold determineSelections.
    rewrite bool_decide_eq_false_2 by assumption. simpl.
    destruct (parseNumbers _ _) as [l|] eqn:Hp; [|discriminate].
    intros [= <- _]. apply (parseNumbers_in_range _ _ _ Hp).
Qed.

Lemma loadLastSelections_files (st st' : State) (path : string) :
  files st' = files st -> loadLastSelections st' path = loadLastSelections st path.
Proof. intros H. unfold loadLastSelections, os_ReadFile. by rewrite H. Qed.

(** After a save that the world accepts, the file reads back as the list. *)
Lemma load_after_save (env : Env) (path : string) (idxs : list Z) (st : State) :
  Forall isInt idxs -> path <> EmptyString -> writeError env path = None ->
  loadLastSelections (finalState (saveLastSelections env path idxs st)) path = Ok idxs.
Proof.
  intros Hint Hp Hw. unfold saveLastSelections.
  destruct (json.MarshalIndent _) as [b|] eqn:Hb; [|discriminate].
  unfold bind, os_MkdirAll, ret, os_WriteFile.
  rewrite decide_False by assumption. rewrite Hw. cbn [finalState].
  unfold loadLastSelections, os_ReadFile. cbn [files].
  rewrite decide_False by assumption. rewrite lookup_insert_eq.
  destruct (Unmarshal_MarshalIndent
              {| LastSelections := idxs; SavedAt := time_Now env |} b Hint Hb)
    as (cfg' & -> & Hl).
  by rewrite Hl.
Qed.

(** X18: a run that goes through a selection and saves it leaves a
    preference file from which the next run under [--use-last] determines
    the same selection (also when the selection itself came from the file,
    with indices outside the catalog in it). *)
Theorem saved_selection_is_replayed (env : Env) (fl fl' : Flags) (st st1 st2 : State)
    (absPath : string) (sel : list Z) (c' : bool) :
  resolveProjectPath env fl (negb (noColor fl)) st = Returned absPath st1 ->
  determineSelections env fl (negb (noColor fl)) (configPath env) st1 = Returned sel st2 ->
  sel <> [] ->
  noSave fl = false ->
  configPath env <> EmptyString ->
  writeError env (configPath env) = None ->
  numbers fl' = EmptyString -> useLast fl' = true ->
  loadLastSelections (finalState (main env fl st)) (configPath env) = Ok sel
  /\ determineSelections env fl' c' (configPath env) (finalState (main env fl st))
     = Returned sel (finalState (main env fl st)).
Proof.
  intros Hr Hd Hsel Hns Hp Hw Hn' Hu'.
  pose proof (determineSelections_isInt _ _ _ _ _ _ _ Hd) as Hint.
  assert (Hload : loadLastSelections (finalState (main env fl st)) (configPath env) = Ok sel).
  { rewrite (main_run_state env fl st st1 st2 absPath sel Hr Hd Hsel). cbn [finalState].
    rewrite (loadLastSelections_files
               (finalState (saveLastSelections env (configPath env) sel st1))).
    - by apply load_after_save.
    - cbn [files]. unfold stateAfterSave. by rewrite Hns. }
  split; [exact Hload|].
  unfold determineSelections. rewrite Hn', Hu'. simpl. rewrite Hload.
  rewrite decide_False; [reflexivity|]. destruct sel; [congruence|discriminate].
Qed.

Lemma saved_selection_is_replayed_witness :
  loadLastSelections (finalState (main exampleEnv flagsUseLast staleState)) examplePath
  = Ok [7; 2]
  /\ determineSelections exampleEnv flagsUseLast true examplePath
       (finalState (main exampleEnv flagsUseLast staleState))
     = Returned [7; 2] (finalState (main exampleEnv flagsUseLast staleState)).
Proof.
  apply (saved_selection_is_replayed exampleEnv flagsUseLast flagsUseLast staleState
           (printed staleState Info true (MsgProjectPath "/srv/app"))
           (printed staleState Info true (MsgProjectPath "/srv/app"))
           "/srv/app" [7; 2] true);
    try reflexivity; discriminate.
Defined.

(** ** The order of the selection sources *)

(** With [--numbers], the run is a function of the parse. *)
Lemma main_numbers (env : Env) (fl : Flags) (st : State) :
  numbers fl <> EmptyString ->
  main env fl st
  = match resolveProjectPath env fl (negb (noColor fl)) st with
    | Exited code s => Exited code s
    | Returned absPath st1 =>
        match parseNumbers (numbers fl) lenTasks with
        | Err e => Exited 1 (printed st1 Failure (negb (noColor fl)) (MsgError e))
        | Ok [] => Exited 1 (printed st1 Failure (negb (noColor fl)) (MsgError ErrNoCommands))
        | Ok sel =>
            Returned tt
              {| files := files (stateAfterSave env fl sel st1);
                 console :=
                   console st1
                   ++ [{| lvl := Success; coloured := negb (noColor fl); text := MsgExecuting |}]
                   ++ runLines env (negb (noColor fl)) absPath (launched st1) sel
                   ++ [{| lvl := Success; coloured := negb (noColor fl);
                          text := MsgAllExecuted |}];
                 launched := launched st1 ++ launchesOf absPath sel |}
        end
    end.
Proof.
  intros Hn.
  destruct (resolveProjectPath env fl (negb (noColor fl)) st) as [absPath st1|code s] eqn:Hr;
    [|by apply main_exit_resolve].
  assert (Hd : determineSelections env fl (negb (noColor fl)) (configPath env) st1
               = match parseNumbers (numbers fl) lenTasks with
                 | Err e => Exited 1 (printed st1 Failure (negb (noColor fl)) (MsgError e))
                 | Ok sel => Returned sel st1
                 end).
  { unfold determineSelections. rewrite bool_decide_eq_false_2 by assumption. simpl.
    by destruct (parseNumbers _ _). }
  destruct (parseNumbers (numbers fl) lenTasks) as [[|i sel]|e].
  - by apply (main_exit_empty env fl st st1 st1 absPath).
  - by apply (main_run_state env fl st st1 st1 absPath).
  - by apply (main_exit_determine env fl st st1 _ absPath).
Qed.

Lemma runLines_withAskOne (env : Env) (ask : MultiSelect -> result (list string))
    (c : bool) (absPath : string) (sel : list Z) : forall before,
  runLines (withAskOne env ask) c absPath before sel = runLines env c absPath before sel.
Proof.
  induction sel as [|i sel IH]; intros before; [reflexivity|].
  cbn [runLines]. destruct (if inRangeb i then taskAt i else None); by rewrite IH.
Qed.

(** X19: [--numbers] goes first.  With it, the run is the same with and
    without [--use-last]; and its exit status, its lines and its child
    processes are the same whatever the preference file holds and whatever
    the operator would answer to the picker. *)
Theorem numbers_go_first (env : Env) (fl : Flags) (st : State) :
  numbers fl <> EmptyString ->
  (forall b, main env (withUseLast fl b) st = main env fl st)
  /\ (forall ask fs,
        exitStatus (main (withAskOne env ask) fl (withFiles st fs))
        = exitStatus (main env fl st)
        /\ console (finalState (main (withAskOne env ask) fl (withFiles st fs)))
           = console (finalState (main env fl st))
        /\ launched (finalState (main (withAskOne env ask) fl (withFiles st fs)))
           = launched (finalState (main env fl st))).
Proof.
  intros Hn. split.
  - intros b. rewrite (main_numbers env fl st Hn).
    rewrite (main_numbers env (withUseLast fl b) st) by exact Hn. reflexivity.
  - intros ask fs. rewrite (main_numbers env fl st Hn).
    rewrite (main_numbers (withAskOne env ask) fl (withFiles st fs) Hn).
    rewrite !resolveProjectPath_spec.
    change (filepath_Abs (withAskOne env ask)) with (filepath_Abs env).
    destruct (filepath_Abs env (projectPath fl)) as [p|e]; [|by auto].
    cbv zeta.
    change (os_Stat (withAskOne env ask)) with (os_Stat env).
    change (filepath_Join (withAskOne env ask)) with (filepath_Join env).
    destruct (parseNumbers (numbers fl) lenTasks) as [[|i sel]|e];
      destruct (os_Stat env _); cbn [exitStatus finalState console launched printed withFiles];
      rewrite ?runLines_withAskOne; auto.
Qed.

Lemma numbers_go_first_witness :
  main exampleEnv (withUseLast (flagsNumbers "3") true) staleState
  = main exampleEnv (flagsNumbers "3") staleState.
Proof.
  assert (Hn : numbers (flagsNumbers "3") <> EmptyString) by discriminate.
  apply (proj1 (numbers_go_first exampleEnv (flagsNumbers "3") staleState Hn)).
Defined.

(** ** No place for the preference file *)

(** X20: when neither the configuration directory nor the home directory
    of the user can be found, no run writes a file, and every run under
    [--use-last] (without [--numbers]) ends with status 1. *)
Theorem no_config_path (env : Env) (fl : Flags) (st : State) (e1 e2 : error) :
  os_UserConfigDir env = Err e1 ->
  os_UserHomeDir env = Err e2 ->
  getConfigPath env = Err e2
  /\ files (finalState (main env fl st)) = files st
  /\ (numbers fl = EmptyString -> useLast fl = true -> exitStatus (main env fl st) = 1).
Proof.
  intros H1 H2.
  assert (Hg : getConfigPath env = Err e2) by (unfold getConfigPath; by rewrite H1, H2).
  assert (Hc : configPath env = EmptyString) by (unfold configPath; by rewrite Hg).
  split; [exact Hg|].
  destruct (main_ends env fl st) as [e Ha Hm|absPath st1 e Hr Hd Hm|absPath st1 Hr Hd Hm
                                    |absPath st1 sel Hr Hd Hsel];
    try (destruct (resolveProjectPath_returned _ _ _ _ _ _ Hr) as (_ & Hf & _ & _));
    try (rewrite Hm; cbn [finalState exitStatus printed files]; by auto).
  rewrite (main_run_state env fl st st1 st1 absPath sel Hr Hd Hsel).
  cbn [finalState exitStatus files]. split.
  - unfold stateAfterSave. destruct (noSave fl); [assumption|].
    rewrite Hc. unfold saveLastSelections, json.MarshalIndent, bind, os_MkdirAll, ret,
      os_WriteFile. simpl. assumption.
  - intros Hn Hu. exfalso. revert Hd. unfold determineSelections.
    rewrite Hn, Hu, Hc. simpl. unfold loadLastSelections, os_ReadFile. simpl. discriminate.
Qed.

Lemma no_config_path_witness :
  getConfigPath
    {| filepath_Abs := filepath_Abs exampleEnv; filepath_Join := filepath_Join exampleEnv;
       filepath_Dir := filepath_Dir exampleEnv; os_Stat := os_Stat exampleEnv;
       os_UserConfigDir := Err (ErrOS "$HOME is not defined");
       os_UserHomeDir := Err (ErrOS "$HOME is not defined");
       time_Now := time_Now exampleEnv; writeError := writeError exampleEnv;
       survey_AskOne := survey_AskOne exampleEnv; cmd_Run := cmd_Run exampleEnv |}
  = Err (ErrOS "$HOME is not defined").
Proof.
  apply (fun H1 H2 =>
           proj1 (no_config_path _ (flagsNumbers "1") emptyState
                    (ErrOS "$HOME is not defined") (ErrOS "$HOME is not defined") H1 H2));
    reflexivity.
Defined.

(** ** The numeric prompt *)

Lemma readLine_readLine (s : string) : readLine (readLine s) = readLine s.
Proof.
  induction s as [|c s IH]; [reflexivity|].
  cbn [readLine]. destruct (Ascii.eqb c (ascii_of_N 10)) eqn:Hc;
    cbn [readLine]; rewrite Hc; [reflexivity|]. by rewrite IH.
Qed.

(** X21: [numericPrompt] looks at the first line of its input only.  What
    it returns has no repetition and holds integers from 1 to [max] only;
    after an error of the parse it returns the empty list and has printed
    the error. *)
Theorem numericPrompt_result (stdin : string) (max : Z) :
  numericPrompt (readLine stdin) max = numericPrompt stdin max
  /\ NoDup (snd (numericPrompt stdin max))
  /\ Forall (fun n => 1 <= n <= max) (snd (numericPrompt stdin max))
  /\ (forall e,
        parseNumbers (strings.TrimSpace (readLine stdin)) max = Err e ->
        numericPrompt stdin max = ([PromptSelect; PromptError e], [])).
Proof.
  unfold numericPrompt. rewrite readLine_readLine.
  destruct (parseNumbers _ max) as [l|e0] eqn:Hp; cbn [snd].
  - pose proof (parseNumbers_NoDup _ _ _ Hp) as Hnd.
    pose proof (parseNumbers_in_range _ _ _ Hp) as Hr.
    repeat split; try assumption. discriminate.
  - repeat split; try constructor. by intros e [= <-].
Qed.

(** ** What the warning and the colour do not change *)

Lemma determineSelections_source (env : Env) (fl : Flags) (c : bool) (cfgPath : string)
    (st : State) :
  determineSelections env fl c cfgPath st
  = match selectionSource env fl cfgPath st with
    | Err e => Exited 1 (printed st Failure c (MsgError e))
    | Ok sel => Returned sel st
    end.
Proof.
  unfold determineSelections, selectionSource.
  destruct (negb (bool_decide (numbers fl = EmptyString))).
  { by destruct (parseNumbers _ _). }
  destruct (useLast fl).
  { destruct (loadLastSelections st cfgPath) as [last|]; [|reflexivity].
    by destruct (decide (length last = 0%nat)). }
  by destruct (survey_AskOne env _).
Qed.

Lemma selectionSource_files (env : Env) (fl : Flags) (cfgPath : string) (st st' : State) :
  files st' = files st ->
  selectionSource env fl cfgPath st' = selectionSource env fl cfgPath st.
Proof.
  intros H. unfold selectionSource, pickerPrompt.
  by rewrite (loadLastSelections_files st st' cfgPath H).
Qed.

(** The run, written out. *)
Lemma main_unfolded (env : Env) (fl : Flags) (st : State) :
  main env fl st
  = match resolveProjectPath env fl (negb (noColor fl)) st with
    | Exited code s => Exited code s
    | Returned absPath st1 =>
        match selectionSource env fl (configPath env) st with
        | Err e => Exited 1 (printed st1 Failure (negb (noColor fl)) (MsgError e))
        | Ok [] => Exited 1 (printed st1 Failure (negb (noColor fl)) (MsgError ErrNoCommands))
        | Ok sel =>
            Returned tt
              {| files := files (stateAfterSave env fl sel st1);
                 console :=
                   console st1
                   ++ [{| lvl := Success; coloured := negb (noColor fl); text := MsgExecuting |}]
                   ++ runLines env (negb (noColor fl)) absPath (launched st) sel
                   ++ [{| lvl := Success; coloured := negb (noColor fl);
                          text := MsgAllExecuted |}];
                 launched := launched st ++ launchesOf absPath sel |}
        end
    end.
Proof.
  destruct (resolveProjectPath env fl (negb (noColor fl)) st) as [absPath st1|code s] eqn:Hr;
    [|by apply main_exit_resolve].
  destruct (resolveProjectPath_returned _ _ _ _ _ _ Hr) as (_ & Hf & Hl & _).
  pose proof (determineSelections_source env fl (negb (noColor fl)) (configPath env) st1) as Hd.
  rewrite (selectionSource_files env fl (configPath env) st st1 Hf) in Hd.
  destruct (selectionSource env fl (configPath env) st) as [[|i sel]|e].
  - by apply (main_exit_empty env fl st st1 st1 absPath).
  - rewrite <- Hl. by apply (main_run_state env fl st st1 st1 absPath).
  - by apply (main_exit_determine env fl st st1 _ absPath).
Qed.



Lemma saveLastSelections_files_ext (env env' : Env) (path : string) (idxs : list Z)
    (st st' : State) :
  files st' = files st ->
  writeError env' path = writeError env path ->
  time_Now env' = time_Now env ->
  files (finalState (saveLastSelections env' path idxs st'))
  = files (finalState (saveLastSelections env path idxs st)).
Proof.
  intros Hf Hw Ht.
  unfold saveLastSelections, json.MarshalIndent, bind, os_MkdirAll, ret, os_WriteFile.
  rewrite Hw, Ht. destruct (decide (path = EmptyString)); [exact Hf|].
  destruct (writeError env path); [exact Hf|]. cbn [finalState files]. by rewrite Hf.
Qed.

Lemma stateAfterSave_files_ext (env env' : Env) (fl fl' : Flags) (sel : list Z)
    (st st' : State) :
  files st' = files st ->
  noSave fl' = noSave fl ->
  configPath env' = configPath env ->
  writeError env' (configPath env) = writeError env (configPath env) ->
  time_Now env' = time_Now env ->
  files (stateAfterSave env' fl' sel st') = files (stateAfterSave env fl sel st).
Proof.
  intros Hf Hn Hc Hw Ht. unfold stateAfterSave. rewrite Hn, Hc.
  destruct (noSave fl); [exact Hf|]. by apply saveLastSelections_files_ext.
Qed.


Lemma plain_runLines (env : Env) (c c' : bool) (absPath : string) (sel : list Z) :
  forall before,
    map plain (runLines env c absPath before sel)
    = map plain (runLines env c' absPath before sel).
Proof.
  induction sel as [|i sel IH]; intros before; [reflexivity|].
  cbn [runLines]. destruct (if inRangeb i then taskAt i else None) as [t|].
  - rewrite !map_app, (IH (before ++ [_])).
    by destruct (cmd_Run env before _).
  - rewrite !map_app, (IH before). by destruct (inRangeb i).
Qed.

(** X23: [--no-color] changes the colour of the lines and nothing else: the
    exit status, the child processes, the files written, and the levels and
    texts of the lines are the same. *)
Theorem no_color_only_changes_colour (env : Env) (fl : Flags) (b : bool) (st : State) :
  exitStatus (main env (withNoColor fl b) st) = exitStatus (main env fl st)
  /\ launched (finalState (main env (withNoColor fl b) st))
     = launched (finalState (main env fl st))
  /\ files (finalState (main env (withNoColor fl b) st))
     = files (finalState (main env fl st))
  /\ map plain (console (finalState (main env (withNoColor fl b) st)))
     = map plain (console (finalState (main env fl st))).
Proof.
  rewrite !main_unfolded, !resolveProjectPath_spec.
  change (projectPath (withNoColor fl b)) with (projectPath fl).
  change (noColor (withNoColor fl b)) with b.
  change (selectionSource env (withNoColor fl b)) with (selectionSource env fl).
  destruct (filepath_Abs env (projectPath fl)) as [p|e];
    [|cbn [exitStatus finalState]; unfold printed; cbn [launched files console];
      rewrite !map_app; by auto].
  cbv zeta.
  set (a := if os_Stat env (filepath_Join env p "artisan")
            then printed st Info (negb b) (MsgProjectPath p)
            else printed (printed st Info (negb b) (MsgProjectPath p))
                   Warn (negb b) MsgArtisanMissing).
  set (a' := if os_Stat env (filepath_Join env p "artisan")
             then printed st Info (negb (noColor fl)) (MsgProjectPath p)
             else printed (printed st Info (negb (noColor fl)) (MsgProjectPath p))
                    Warn (negb (noColor fl)) MsgArtisanMissing).
  assert (Hf : files a = files a') by (unfold a, a'; by destruct (os_Stat env _)).
  assert (Hl : launched a = launched a') by (unfold a, a'; by destruct (os_Stat env _)).
  assert (Hc : map plain (console a) = map plain (console a')).
  { unfold a, a'. destruct (os_Stat env _); unfold printed; cbn [console];
      rewrite !map_app; reflexivity. }
  destruct (selectionSource env fl (configPath env) st) as [[|i sel]|e];
    cbn [exitStatus finalState launched console files];
    repeat split; try reflexivity;
    try (unfold printed; cbn [files launched console];
         first [exact Hf | exact Hl | rewrite !map_app, Hc; reflexivity]).
  - by apply stateAfterSave_files_ext.
  - rewrite !map_app, Hc, (plain_runLines env (negb b) (negb (noColor fl))). reflexivity.
Qed.
